(** * rs-note-app: the note store, the file list and the save / load / select
    handlers of [src/App.svelte]

    The component keeps one writable store [file] (the note being edited),
    one local array [files] (the records last returned by the backend) and
    three handlers: [onClickSave], [onClick] and the click handler of a list
    item.  The handlers talk to the backend through [invoke] and move notes
    in and out of the store through [JSON.stringify] and [JSON.parse].

    The development has six parts:
    - [JS]: JavaScript strings as lists of UTF-16 code units, JSON values,
      [JSON.stringify] and [JSON.parse] (ECMA-262, sections 25.5.1 and 25.5.2);
    - [App]: the state of the component and its handlers, first each handler
      on its own terms, then the event loop that interleaves them;
    - [Editor]: typing in the two inputs, and sessions of typing and events;
    - [JSONFacts]: the parser always ends, and it reads back the strings
      that [JSON.stringify] writes;
    - [Handlers]: the properties of the handlers;
    - [Sessions]: the properties of sessions.

    What is left out.  The rendered [output] is the result of [marked], a
    library that is not part of the repository, on the body of the note
    (lines 19-23 and 49); nothing is said here about what [marked] returns.
    A number is kept as the characters of its literal, not as the double it
    denotes; [JSON.stringify] has no bound on the nesting of the value it
    writes, where an engine throws a RangeError beyond the depth its stack
    allows; and an array cannot take the named property that typing would
    give it.  The statements that say which call a handler makes, or what
    typing does, are therefore stated for a store that holds a note, the
    object of a title and a body, where none of the three plays a part. *)

From Stdlib Require Import List NArith Bool Lia Ascii String.
Import ListNotations.

Local Open Scope N_scope.

(* ===================================================================== *)
(** ** JavaScript strings and JSON                                        *)
(* ===================================================================== *)

Module JS.

(** A JavaScript string is a finite sequence of 16-bit code units. *)
Definition code_unit := N.
Definition jsstring := list code_unit.

(** The string of an ASCII literal. *)
Definition js (s : string) : jsstring := map N_of_ascii (list_ascii_of_string s).

Definition jsstring_dec (a b : jsstring) : {a = b} + {a <> b} :=
  list_eq_dec N.eq_dec a b.

Definition str_eqb (a b : jsstring) : bool :=
  if jsstring_dec a b then true else false.

(** JSON values as [JSON.parse] builds them.  An object is the list of its
    own properties in the order in which the engine enumerates them
    (OrdinaryOwnPropertyKeys: array indices in ascending order, then the
    other keys in the order of their creation).

    A number is kept as the characters of its literal: the value of the
    literal as a double and the way [Number::toString] prints it play no part
    in the handlers, which only ever move numbers around. *)
#[warnings="-register-all"]
Inductive json : Type :=
| JNull
| JBool (b : bool)
| JNum (literal : jsstring)
| JStr (s : jsstring)
| JArr (elements : list json)
| JObj (properties : list (jsstring * json)).

(* --------------------------------------------------------------------- *)
(** *** Objects                                                           *)

Definition is_digit (c : code_unit) : bool := (48 <=? c) && (c <=? 57).

Definition decimal (ds : jsstring) : N :=
  fold_left (fun acc d => 10 * acc + (d - 48)) ds 0.

(** An array index is a canonical numeric string below 2^32 - 1. *)
Definition array_index (k : jsstring) : option N :=
  match k with
  | [] => None
  | c :: t =>
      if forallb is_digit k && (negb (c =? 48) || match t with [] => true | _ => false end)
      then if decimal k <? 2 ^ 32 - 1 then Some (decimal k) else None
      else None
  end.

Fixpoint lookup (k : jsstring) (ps : list (jsstring * json)) : option json :=
  match ps with
  | [] => None
  | (k', v) :: r => if str_eqb k k' then Some v else lookup k r
  end.

Fixpoint replace (k : jsstring) (v : json) (ps : list (jsstring * json))
  : list (jsstring * json) :=
  match ps with
  | [] => []
  | (k', v') :: r =>
      if str_eqb k k' then (k', v) :: r else (k', v') :: replace k v r
  end.

Fixpoint insert_index (i : N) (k : jsstring) (v : json)
  (ps : list (jsstring * json)) : list (jsstring * json) :=
  match ps with
  | [] => [(k, v)]
  | (k', v') :: r =>
      match array_index k' with
      | Some j => if j <? i then (k', v') :: insert_index i k v r
                  else (k, v) :: ps
      | None => (k, v) :: ps
      end
  end.

(** CreateDataProperty on an ordinary object: an existing property keeps its
    place and takes the new value; a new array index goes among the indices;
    any other new key goes last. *)
Definition define (k : jsstring) (v : json) (ps : list (jsstring * json))
  : list (jsstring * json) :=
  match lookup k ps with
  | Some _ => replace k v ps
  | None =>
      match array_index k with
      | Some i => insert_index i k v ps
      | None => ps ++ [(k, v)]
      end
  end.

(* --------------------------------------------------------------------- *)
(** *** JSON.stringify                                                    *)

Definition hex_digit (d : N) : code_unit :=
  if d <? 10 then 48 + d else 87 + d.

(** UnicodeEscape: [\uXXXX] with lower-case hexadecimal digits. *)
Definition unicode_escape (c : code_unit) : jsstring :=
  [92; 117; hex_digit (c / 4096 mod 16); hex_digit (c / 256 mod 16);
   hex_digit (c / 16 mod 16); hex_digit (c mod 16)].

Definition is_high_surrogate (c : code_unit) : bool :=
  (55296 <=? c) && (c <=? 56319).
Definition is_low_surrogate (c : code_unit) : bool :=
  (56320 <=? c) && (c <=? 57343).

(** QuoteJSONString without the enclosing quotes.  The string is read as
    code points: a high surrogate followed by a low one is a pair and is
    copied, a surrogate on its own is escaped. *)
Fixpoint quote_chars (s : jsstring) : jsstring :=
  match s with
  | [] => []
  | c :: t =>
      if c =? 8 then [92; 98] ++ quote_chars t
      else if c =? 9 then [92; 116] ++ quote_chars t
      else if c =? 10 then [92; 110] ++ quote_chars t
      else if c =? 12 then [92; 102] ++ quote_chars t
      else if c =? 13 then [92; 114] ++ quote_chars t
      else if c =? 34 then [92; 34] ++ quote_chars t
      else if c =? 92 then [92; 92] ++ quote_chars t
      else if c <? 32 then unicode_escape c ++ quote_chars t
      else if is_high_surrogate c then
        match t with
        | d :: t' =>
            if is_low_surrogate d then c :: d :: quote_chars t'
            else unicode_escape c ++ quote_chars t
        | [] => unicode_escape c
        end
      else if is_low_surrogate c then unicode_escape c ++ quote_chars t
      else c :: quote_chars t
  end.

Definition quote (s : jsstring) : jsstring := 34 :: quote_chars s ++ [34].

Fixpoint join (sep : jsstring) (parts : list jsstring) : jsstring :=
  match parts with
  | [] => []
  | [p] => p
  | p :: r => p ++ sep ++ join sep r
  end.

(** [JSON.stringify(v)] with no replacer and no indentation.  A number is
    written as the literal it was read from. *)
Fixpoint JSON_stringify (v : json) : jsstring :=
  match v with
  | JNull => js "null"
  | JBool true => js "true"
  | JBool false => js "false"
  | JNum literal => literal
  | JStr s => quote s
  | JArr elements =>
      js "[" ++ join (js ",") (map JSON_stringify elements) ++ js "]"
  | JObj properties =>
      js "{" ++
      join (js ",")
        (map (fun p => quote (fst p) ++ js ":" ++ JSON_stringify (snd p))
           properties) ++
      js "}"
  end.

(* --------------------------------------------------------------------- *)
(** *** JSON.parse                                                        *)

(** The result of a parser: a value and the rest of the text, a syntax
    error, or recursion that was cut short. *)
Inductive parsed (A : Type) : Type :=
| Parsed (a : A) (rest : jsstring)
| Unexpected
| Fuel.
Arguments Parsed {A} a rest.
Arguments Unexpected {A}.
Arguments Fuel {A}.

Definition bind {A B} (p : parsed A) (k : A * jsstring -> parsed B) : parsed B :=
  match p with
  | Parsed a rest => k (a, rest)
  | Unexpected => Unexpected
  | Fuel => Fuel
  end.

Notation "' pat <- p ;; k" := (bind p (fun x => match x with pat => k end))
  (at level 61, pat pattern, p at next level, right associativity).

Definition is_ws (c : code_unit) : bool :=
  (c =? 9) || (c =? 10) || (c =? 13) || (c =? 32).

Fixpoint skip_ws (s : jsstring) : jsstring :=
  match s with
  | c :: t => if is_ws c then skip_ws t else s
  | [] => []
  end.

Definition expect (c : code_unit) (s : jsstring) : parsed unit :=
  match s with
  | c' :: t => if c' =? c then Parsed tt t else Unexpected
  | [] => Unexpected
  end.

Definition hex_val (c : code_unit) : option N :=
  if (48 <=? c) && (c <=? 57) then Some (c - 48)
  else if (97 <=? c) && (c <=? 102) then Some (c - 87)
  else if (65 <=? c) && (c <=? 70) then Some (c - 55)
  else None.

Definition hex4_val (h1 h2 h3 h4 : code_unit) : option code_unit :=
  match hex_val h1, hex_val h2, hex_val h3, hex_val h4 with
  | Some a, Some b, Some c, Some d => Some (((a * 16 + b) * 16 + c) * 16 + d)
  | _, _, _, _ => None
  end.

(** The single-character escapes of a JSON string. *)
Definition unescape (e : code_unit) : option code_unit :=
  if e =? 34 then Some 34
  else if e =? 92 then Some 92
  else if e =? 47 then Some 47
  else if e =? 98 then Some 8
  else if e =? 102 then Some 12
  else if e =? 110 then Some 10
  else if e =? 114 then Some 13
  else if e =? 116 then Some 9
  else None.

Definition push {A} (a : A) (p : parsed (list A)) : parsed (list A) :=
  match p with
  | Parsed l rest => Parsed (a :: l) rest
  | Unexpected => Unexpected
  | Fuel => Fuel
  end.

(** The characters of a string literal, after its opening quote and up to
    and including its closing quote. *)
Fixpoint parse_chars (s : jsstring) : parsed jsstring :=
  match s with
  | [] => Unexpected
  | c :: t =>
      if c =? 34 then Parsed [] t
      else if c =? 92 then
        match t with
        | [] => Unexpected
        | e :: t' =>
            if e =? 117 then
              match t' with
              | h1 :: h2 :: h3 :: h4 :: t'' =>
                  match hex4_val h1 h2 h3 h4 with
                  | Some u => push u (parse_chars t'')
                  | None => Unexpected
                  end
              | _ => Unexpected
              end
            else
              match unescape e with
              | Some u => push u (parse_chars t')
              | None => Unexpected
              end
        end
      else if c <? 32 then Unexpected
      else push c (parse_chars t)
  end.

Fixpoint span_digits (s : jsstring) : jsstring * jsstring :=
  match s with
  | c :: t =>
      if is_digit c then let (ds, r) := span_digits t in (c :: ds, r)
      else ([], s)
  | [] => ([], [])
  end.

(** One or more digits. *)
Definition digits1 (s : jsstring) : parsed jsstring :=
  match span_digits s with
  | ([], _) => Unexpected
  | (ds, r) => Parsed ds r
  end.

(** A number literal: an optional minus sign; a zero, or a non-zero digit
    and any digits; optionally a point and one or more digits; optionally
    an [e] or [E], an optional sign and one or more digits. *)
Definition optional_sign (minus_only : bool) (s : jsstring)
  : jsstring * jsstring :=
  match s with
  | c :: t =>
      if (c =? 45) || (negb minus_only && (c =? 43)) then ([c], t) else ([], s)
  | [] => ([], s)
  end.

Definition parse_int (s : jsstring) : parsed jsstring :=
  match s with
  | c :: t => if c =? 48 then Parsed [48] t else digits1 s
  | [] => Unexpected
  end.

Definition parse_frac (s : jsstring) : parsed jsstring :=
  match s with
  | c :: t =>
      if c =? 46 then ' (ds, r) <- digits1 t ;; Parsed (c :: ds) r
      else Parsed [] s
  | [] => Parsed [] s
  end.

Definition parse_exp (s : jsstring) : parsed jsstring :=
  match s with
  | c :: t =>
      if (c =? 101) || (c =? 69) then
        let (sign, t1) := optional_sign false t in
        ' (ds, r) <- digits1 t1 ;; Parsed (c :: sign ++ ds) r
      else Parsed [] s
  | [] => Parsed [] s
  end.

Definition parse_number (s : jsstring) : parsed jsstring :=
  let (sign, s1) := optional_sign true s in
  ' (int, s2) <- parse_int s1 ;;
  ' (frac, s3) <- parse_frac s2 ;;
  ' (exp, s4) <- parse_exp s3 ;;
  Parsed (sign ++ int ++ frac ++ exp) s4.

Fixpoint strip_prefix (p s : jsstring) : option jsstring :=
  match p, s with
  | [], _ => Some s
  | a :: p', b :: s' => if a =? b then strip_prefix p' s' else None
  | _ :: _, [] => None
  end.

Definition keyword (w : string) (v : json) (s : jsstring) : parsed json :=
  match strip_prefix (js w) s with
  | Some rest => Parsed v rest
  | None => Unexpected
  end.

Section Containers.

(** The parser of the values inside an array or an object. *)
Variable value : jsstring -> parsed json.

(** The elements of an array after the first one, each behind a comma,
    then the closing bracket.  [n] bounds the number of elements. *)
Fixpoint parse_elements (n : nat) (acc : list json) (s : jsstring)
  : parsed (list json) :=
  match n with
  | O => Fuel
  | S n' =>
      match skip_ws s with
      | c :: t =>
          if c =? 93 then Parsed (rev acc) t
          else if c =? 44 then
            ' (v, r) <- value t ;; parse_elements n' (v :: acc) r
          else Unexpected
      | [] => Unexpected
      end
  end.

Definition parse_array (n : nat) (s : jsstring) : parsed json :=
  match skip_ws s with
  | c :: t =>
      if c =? 93 then Parsed (JArr []) t
      else
        ' (v, r) <- value s ;;
        ' (vs, r') <- parse_elements n [v] r ;;
        Parsed (JArr vs) r'
  | [] => Unexpected
  end.

(** One member of an object: [ws string ws : value]. *)
Definition parse_member (s : jsstring) : parsed (jsstring * json) :=
  ' (_, r1) <- expect 34 (skip_ws s) ;;
  ' (k, r2) <- parse_chars r1 ;;
  ' (_, r3) <- expect 58 (skip_ws r2) ;;
  ' (v, r4) <- value r3 ;;
  Parsed (k, v) r4.

Fixpoint parse_members (n : nat) (acc : list (jsstring * json)) (s : jsstring)
  : parsed (list (jsstring * json)) :=
  match n with
  | O => Fuel
  | S n' =>
      match skip_ws s with
      | c :: t =>
          if c =? 125 then Parsed acc t
          else if c =? 44 then
            ' (m, r) <- parse_member t ;;
            parse_members n' (define (fst m) (snd m) acc) r
          else Unexpected
      | [] => Unexpected
      end
  end.

Definition parse_object (n : nat) (s : jsstring) : parsed json :=
  match skip_ws s with
  | c :: t =>
      if c =? 125 then Parsed (JObj []) t
      else
        ' (m, r) <- parse_member s ;;
        ' (ps, r') <- parse_members n [m] r ;;
        Parsed (JObj ps) r'
  | [] => Unexpected
  end.

End Containers.

(** A JSON value with the white space before it.  [n] bounds the depth of
    nesting and the length of every array and object; the length of the
    text is always enough ([parse_value_fuel]). *)
Fixpoint parse_value (n : nat) (s : jsstring) : parsed json :=
  match n with
  | O => Fuel
  | S n' =>
      match skip_ws s with
      | [] => Unexpected
      | c :: t =>
          if c =? 123 then parse_object (parse_value n') n' t
          else if c =? 91 then parse_array (parse_value n') n' t
          else if c =? 34 then ' (str, r) <- parse_chars t ;; Parsed (JStr str) r
          else if c =? 116 then keyword "true" (JBool true) (c :: t)
          else if c =? 102 then keyword "false" (JBool false) (c :: t)
          else if c =? 110 then keyword "null" JNull (c :: t)
          else if (c =? 45) || is_digit c then
            ' (lit, r) <- parse_number (c :: t) ;; Parsed (JNum lit) r
          else Unexpected
      end
  end.

(** The whole text must be one value between optional white space. *)
Definition parse_text (n : nat) (text : jsstring) : parsed json :=
  ' (v, r) <- parse_value n text ;;
  match skip_ws r with
  | [] => Parsed v []
  | _ :: _ => Unexpected
  end.

(** [JSON.parse(text)] with no reviver: [None] is the SyntaxError it throws. *)
Definition JSON_parse (text : jsstring) : option json :=
  match parse_text (S (List.length text)) text with
  | Parsed v _ => Some v
  | Unexpected | Fuel => None
  end.

(** A parser that leaves less text than it was given, and a parser that
    never stops for want of recursion depth on a text shorter than [bound]. *)
Definition consumes {A} (p : jsstring -> parsed A) : Prop :=
  forall s a r, p s = Parsed a r -> (List.length r < List.length s)%nat.

Definition never_cut {A} (p : jsstring -> parsed A) (bound : nat) : Prop :=
  forall s, (List.length s < bound)%nat -> p s <> Fuel.

End JS.

(* ===================================================================== *)
(** ** The component                                                      *)
(* ===================================================================== *)

Module App.
Import JS.

(** The value held by the store [file] (lines 3-9).  Its declared type gives
    [content] the shape [{file_name, content}], but the value the list-item
    handler puts there is whatever [JSON.parse] returns (line 63), so
    [content] is a JSON value. *)
Record Note : Type := { uuid : jsstring; content : json }.

(** An element [f] of [files]: a record as the backend returns it. *)
Record PersistedRecord : Type := { f_uuid : jsstring; f_content : jsstring }.

(** The two property names of a note's content. *)
Definition k_file_name : jsstring := js "file_name".
Definition k_content : jsstring := js "content".

(** What a handler can throw, or reject its promise with. *)
Inductive Exn : Type :=
| SyntaxError
| TypeError
| BackendError (e : jsstring).

(** [v.k] for one of the two keys above (neither is an array index, nor
    [length], nor inherited from a prototype): reading a property of [null]
    throws, an object gives the property or [undefined] ([None]), and every
    other value gives [undefined]. *)
Definition member (k : jsstring) (v : json) : Exn + option json :=
  match v with
  | JNull => inl TypeError
  | JObj properties => inr (lookup k properties)
  | _ => inr None
  end.

(** The commands sent through [invoke] (lines 26-30 and 35). *)
Inductive Command : Type :=
| get_files
| save_file (fileName : option json) (uuid : jsstring) (content : jsstring).

(** How the promise of [invoke] settles. *)
Inductive Response : Type :=
| Resolved (data : list PersistedRecord)
| Rejected (e : jsstring).

(** The state of the component: the store, the local [files], and the calls
    to [invoke] whose promise has not settled yet, oldest first. *)
Record State : Type := {
  file : Note;
  files : list PersistedRecord;
  outstanding : list Command
}.

Definition set_file (n : Note) (st : State) : State :=
  {| file := n; files := files st; outstanding := outstanding st |}.
Definition set_files (l : list PersistedRecord) (st : State) : State :=
  {| file := file st; files := l; outstanding := outstanding st |}.
Definition set_outstanding (l : list Command) (st : State) : State :=
  {| file := file st; files := files st; outstanding := l |}.

(** The object [{ content: body, file_name: title }], with its properties
    in the order in which line 8 creates them. *)
Definition note (title body : jsstring) : json :=
  JObj [(k_content, JStr body); (k_file_name, JStr title)].

(** Lines 3-9 and 17: the empty note and the empty list. *)
Definition init : State :=
  {| file := {| uuid := []; content := note [] [] |};
     files := [];
     outstanding := [] |}.

(** How a handler ends: it returns (its promise is fulfilled), it throws
    (its promise is rejected), or it is suspended at its [await]. *)
Inductive Completion : Type :=
| Fulfilled
| Failed (e : Exn)
| Awaiting.

(** [a || b] on strings: the empty string is the only falsy one. *)
Definition or_else (a b : jsstring) : jsstring :=
  match a with
  | [] => b
  | _ :: _ => a
  end.

(** [onClickSave] up to its [await] (lines 25-30): the call it makes, or the
    exception it throws before making one.  [fresh] is what
    [crypto.randomUUID()] returns when it is called.  The RangeError of
    [JSON.stringify] on a content nested deeper than the stack of the engine
    allows is not modelled. *)
Definition onClickSave_call (fresh : jsstring) (n : Note) : Exn + Command :=
  let uuid := or_else (uuid n) fresh in
  match member k_file_name (content n) with
  | inl e => inl e
  | inr fileName => inr (save_file fileName uuid (JSON_stringify (content n)))
  end.

(** [onClick] up to its [await] (line 35). *)
Definition onClick_call : Command := get_files.

(** Both handlers after their [await] (lines 30-32 and 35-37): a rejected
    promise rejects the handler's own, a resolved one is copied into [files]. *)
Definition resume (r : Response) (st : State) : State * Completion :=
  match r with
  | Resolved data => (set_files data st, Fulfilled)
  | Rejected e => (st, Failed (BackendError e))
  end.

(** The click handler of a list item (lines 62-63):
    [file.update((u) => ({ ...f, content: JSON.parse(f.content) }))]. *)
Definition select (f : PersistedRecord) (st : State) : State * Completion :=
  match JSON_parse (f_content f) with
  | Some v => (set_file {| uuid := f_uuid f; content := v |} st, Fulfilled)
  | None => (st, Failed SyntaxError)
  end.

(* --------------------------------------------------------------------- *)
(** *** A handler run to its end                                          *)

(** [onClickSave] with the answer of the backend to the call it makes. *)
Definition onClickSave (fresh : jsstring) (backend : Command -> Response) (st : State)
  : State * Completion :=
  match onClickSave_call fresh (file st) with
  | inl e => (st, Failed e)
  | inr c => resume (backend c) st
  end.

(** [onClick] with the answer of the backend. *)
Definition onClick (backend : Command -> Response) (st : State)
  : State * Completion :=
  resume (backend onClick_call) st.

(* --------------------------------------------------------------------- *)
(** *** The event loop                                                    *)

(** What can happen to the component: a click on one of the two buttons or
    on a list item, and the settling of the [i]-th outstanding call. *)
Inductive Event : Type :=
| ClickSave (fresh : jsstring)
| ClickLoad
| ClickItem (f : PersistedRecord)
| Settle (i : nat) (r : Response).

Fixpoint remove_nth {A} (i : nat) (l : list A) : list A :=
  match i, l with
  | _, [] => []
  | O, _ :: t => t
  | S i', x :: t => x :: remove_nth i' t
  end.

Definition call (c : Command) (st : State) : State :=
  set_outstanding (outstanding st ++ [c]) st.

(** One turn of the event loop; [None] when the event cannot happen (there
    is no [i]-th outstanding call to settle). *)
Definition step (ev : Event) (st : State) : option (State * Completion) :=
  match ev with
  | ClickSave fresh =>
      match onClickSave_call fresh (file st) with
      | inl e => Some (st, Failed e)
      | inr c => Some (call c st, Awaiting)
      end
  | ClickLoad => Some (call onClick_call st, Awaiting)
  | ClickItem f => Some (select f st)
  | Settle i r =>
      match nth_error (outstanding st) i with
      | Some _ => Some (resume r (set_outstanding (remove_nth i (outstanding st)) st))
      | None => None
      end
  end.

(** The component once its script has run: line 40 calls [onClick()]. *)
Definition mounted : State := call onClick_call init.

(* --------------------------------------------------------------------- *)
(** *** The words of the specification                                    *)

(** Section 4.4 of the specification: selection "deserializes [content] into
    [{title, body}]".  The title is the property [file_name] and the body
    the property [content] of the serialized object. *)
Definition deserialize (s : jsstring) : option (jsstring * jsstring) :=
  match JSON_parse s with
  | Some (JObj properties) =>
      match lookup k_file_name properties, lookup k_content properties with
      | Some (JStr title), Some (JStr body) => Some (title, body)
      | _, _ => None
      end
  | _ => None
  end.

(** The store holds the note of title [title] and body [body]: its content
    is the object of the two properties [file_name] and [content], in the
    order of line 8 or in the other one. *)
Definition is_note (v : json) (title body : jsstring) : Prop :=
  v = note title body \/
  v = JObj [(k_file_name, JStr title); (k_content, JStr body)].

(** The call that a request makes: a click on Load calls [get_files]; a
    click on Save, while the store holds a note, calls [save_file] with the
    title, the identifier of the store or the generated one, and the text
    of the note. *)
Definition sends (ev : Event) (st : State) (c : Command) : Prop :=
  match ev with
  | ClickLoad => c = get_files
  | ClickSave fresh =>
      exists title body,
        is_note (content (file st)) title body /\
        c = save_file (Some (JStr title)) (or_else (uuid (file st)) fresh)
              (JSON_stringify (content (file st)))
  | ClickItem _ | Settle _ _ => False
  end.

(** Section 4.4: the controller is [Idle] when no backend call is
    outstanding, and [Loading] or [Saving] otherwise. *)
Definition idle (st : State) : bool :=
  match outstanding st with
  | [] => true
  | _ :: _ => false
  end.

(** Modelled from the spec: the storage backend behind [invoke] (the commands
    [get_files] and [save_file] are implemented outside [src/]).  Section 6:
    [get_files] returns the full current set of persisted notes, [save_file]
    upserts a record by [uuid] and returns the full updated set. *)
Fixpoint upsert (r : PersistedRecord) (db : list PersistedRecord)
  : list PersistedRecord :=
  match db with
  | [] => [r]
  | x :: t =>
      if str_eqb (f_uuid x) (f_uuid r) then r :: t else x :: upsert r t
  end.

Definition upsert_backend (db : list PersistedRecord) (c : Command)
  : Response :=
  match c with
  | get_files => Resolved db
  | save_file _ uuid content =>
      Resolved (upsert {| f_uuid := uuid; f_content := content |} db)
  end.

(** A backend whose every call fails. *)
Definition broken (e : jsstring) (c : Command) : Response := Rejected e.

(** An identifier as [crypto.randomUUID()] writes them. *)
Definition uuid1 : jsstring := js "3b241101-e2bb-4255-8caf-4136c566a962".
Definition uuid2 : jsstring := js "9f1e7c52-0c3a-4b8e-a1d4-7e5b2c9d0f13".

End App.

(* ===================================================================== *)
(** ** Typing, and whole sessions                                         *)
(* ===================================================================== *)

Module Editor.
Import JS App.

(** The assignment [$file.content.k = text] that [bind:value] makes when the
    user types in one of the two inputs (lines 44 and 47), for one of the
    two keys [file_name] and [content].  On an object the property takes the
    new value where it is, or is created last.  On [null], and in the strict
    code of a module on a number, a string or a boolean, the assignment
    throws.  On an array it creates a named property, which a JSON value
    cannot hold: there the result is [None]. *)
Definition assign (k text : jsstring) (v : json) : option (Exn + json) :=
  match v with
  | JObj properties => Some (inr (JObj (define k (JStr text) properties)))
  | JArr _ => None
  | JNull | JBool _ | JNum _ | JStr _ => Some (inl TypeError)
  end.

(** The input handler of [bind:value]: the assignment, then [file.set($file)]. *)
Definition on_input (k text : jsstring) (st : State)
  : option (State * Completion) :=
  match assign k text (content (file st)) with
  | None => None
  | Some (inl e) => Some (st, Failed e)
  | Some (inr v) =>
      Some (set_file {| uuid := uuid (file st); content := v |} st, Fulfilled)
  end.

(** Everything the user and the backend can do to the component: the events
    of the loop, and typing in the title input or in the body textarea. *)
Inductive Action : Type :=
| Loop (ev : Event)
| TypeTitle (text : jsstring)
| TypeBody (text : jsstring).

Definition act (a : Action) (st : State) : option (State * Completion) :=
  match a with
  | Loop ev => step ev st
  | TypeTitle text => on_input k_file_name text st
  | TypeBody text => on_input k_content text st
  end.

(** A session: the actions one after the other, exceptions left unhandled
    as the component leaves them. *)
Fixpoint run (acts : list Action) (st : State) : option State :=
  match acts with
  | [] => Some st
  | a :: rest =>
      match act a st with
      | Some (st', _) => run rest st'
      | None => None
      end
  end.

Definition is_item_click (a : Action) : bool :=
  match a with
  | Loop (ClickItem _) => true
  | _ => false
  end.

Definition is_resolved (a : Action) : bool :=
  match a with
  | Loop (Settle _ (Resolved _)) => true
  | _ => false
  end.

Definition no_item_click (acts : list Action) : bool :=
  forallb (fun a => negb (is_item_click a)) acts.

Definition no_resolved (acts : list Action) : bool :=
  forallb (fun a => negb (is_resolved a)) acts.

(** The title and the body last typed in a session, or the ones it began
    with. *)
Fixpoint typed_title (acts : list Action) (title : jsstring) : jsstring :=
  match acts with
  | [] => title
  | TypeTitle text :: rest => typed_title rest text
  | _ :: rest => typed_title rest title
  end.

Fixpoint typed_body (acts : list Action) (body : jsstring) : jsstring :=
  match acts with
  | [] => body
  | TypeBody text :: rest => typed_body rest text
  | _ :: rest => typed_body rest body
  end.

(** A session after the component is mounted: a title is typed, Save is
    clicked, a body is typed, the load of line 40 is answered with the
    empty list, and the call of Save fails. *)
Definition first_session : list Action :=
  [TypeTitle (js "T"); Loop (ClickSave uuid1); TypeBody (js "# Hi");
   Loop (Settle 0 (Resolved [])); Loop (Settle 0 (Rejected (js "offline")))].

(** A click on a list item that keeps a note in the store: the content of
    the record is not JSON text, and the handler throws, or it is JSON text
    that [JSON.parse] reads as a note.  Every other action does. *)
Definition opens_note (a : Action) : Prop :=
  match a with
  | Loop (ClickItem f) =>
      JSON_parse (f_content f) = None \/
      exists v title body,
        JSON_parse (f_content f) = Some v /\ is_note v title body
  | _ => True
  end.

(** The identifier of the record opened last in a session, that is of the
    last record clicked whose content [JSON.parse] accepted, or the
    identifier the session began with. *)
Fixpoint last_opened (acts : list Action) (u : jsstring) : jsstring :=
  match acts with
  | [] => u
  | Loop (ClickItem f) :: rest =>
      last_opened rest
        (match JSON_parse (f_content f) with
         | Some _ => f_uuid f
         | None => u
         end)
  | _ :: rest => last_opened rest u
  end.

(** A record as another writer could have stored it: the title before the
    body, and spaces between the tokens. *)
Definition spaced_record : PersistedRecord :=
  {| f_uuid := uuid1;
     f_content :=
       js "{ " ++ quote k_file_name ++ js " : " ++ quote (js "T") ++ js " , " ++
       quote k_content ++ js " : " ++ quote (js "# Hi") ++ js " }" |}.

(** A session with two records opened: something is typed, [spaced_record]
    is opened, a record that is not JSON is clicked, a body is typed, Save
    and Load are clicked, and the load of line 40 fails. *)
Definition second_session : list Action :=
  [TypeTitle (js "draft"); Loop (ClickItem spaced_record);
   Loop (ClickItem {| f_uuid := uuid2; f_content := js "# Hi" |});
   TypeBody (js "text"); Loop (ClickSave uuid2); Loop ClickLoad;
   Loop (Settle 0 (Rejected (js "offline")))].

(** The values that have no properties to assign: [null], and the
    primitive values. *)
Definition is_primitive (v : json) : bool :=
  match v with
  | JNull | JBool _ | JNum _ | JStr _ => true
  | JArr _ | JObj _ => false
  end.

End Editor.

(* ===================================================================== *)
(** ** Properties of JSON text                                            *)
(* ===================================================================== *)

Module JSONFacts.
Import JS.

Lemma hex_val_digit (d : N) : d < 16 -> hex_val (hex_digit d) = Some d.
Proof.
  intros Hd. unfold hex_digit, hex_val.
  destruct (d <? 10) eqn:E.
  - apply N.ltb_lt in E.
    replace ((48 <=? 48 + d) && (48 + d <=? 57)) with true.
    + f_equal. lia.
    + symmetry. apply andb_true_intro. split; apply N.leb_le; lia.
  - apply N.ltb_ge in E.
    replace ((48 <=? 87 + d) && (87 + d <=? 57)) with false.
    + replace ((97 <=? 87 + d) && (87 + d <=? 102)) with true.
      * f_equal. lia.
      * symmetry. apply andb_true_intro. split; apply N.leb_le; lia.
    + symmetry. apply andb_false_intro2. apply N.leb_gt. lia.
Qed.

Lemma hex4_val_escape (c : code_unit) :
  c < 65536 ->
  hex4_val (hex_digit (c / 4096 mod 16)) (hex_digit (c / 256 mod 16))
           (hex_digit (c / 16 mod 16)) (hex_digit (c mod 16)) = Some c.
Proof.
  intros Hc. unfold hex4_val.
  rewrite !hex_val_digit by (apply N.mod_lt; discriminate).
  f_equal.
  assert (H1 : c / 4096 < 16) by (apply N.Div0.div_lt_upper_bound; lia).
  rewrite (N.mod_small (c / 4096) 16 H1).
  pose proof (N.div_mod c 16 ltac:(discriminate)) as E0.
  pose proof (N.div_mod (c / 16) 16 ltac:(discriminate)) as E1.
  pose proof (N.div_mod (c / 16 / 16) 16 ltac:(discriminate)) as E2.
  rewrite !N.Div0.div_div in E1, E2.
  rewrite !N.Div0.div_div in E2.
  change (16 * 16) with 256 in *. change (256 * 16) with 4096 in *.
  lia.
Qed.

Lemma parse_chars_plain (c : code_unit) (t : jsstring) :
  c <> 34 -> c <> 92 -> 32 <= c ->
  parse_chars (c :: t) = push c (parse_chars t).
Proof.
  intros H34 H92 H32. cbn [parse_chars].
  apply N.eqb_neq in H34, H92. rewrite H34, H92.
  apply N.ltb_ge in H32. rewrite H32. reflexivity.
Qed.

Lemma parse_chars_unicode_escape (c : code_unit) (t : jsstring) :
  c < 65536 ->
  parse_chars (unicode_escape c ++ t) = push c (parse_chars t).
Proof.
  intros Hc. unfold unicode_escape. cbn [app parse_chars].
  change (92 =? 34) with false. change (92 =? 92) with true.
  change (117 =? 117) with true. cbv iota.
  rewrite (hex4_val_escape c Hc). reflexivity.
Qed.

Ltac case_eqb c k :=
  let E := fresh "E" in
  destruct (N.eqb_spec c k) as [E | E]; [subst c | ].

(** Reading back what [quote_chars] wrote gives the string it was given,
    whatever its code units. *)
Lemma parse_chars_quote_chars (s rest : jsstring) :
  parse_chars (quote_chars s ++ 34 :: rest) = Parsed s rest.
Proof.
  remember (List.length s) as n eqn:Hn.
  assert (Hle : (List.length s <= n)%nat) by lia. clear Hn.
  revert s Hle rest.
  induction n as [| n IH]; intros [| c t] Hle rest; cbn [List.length] in Hle;
    try lia; try reflexivity.
  assert (IHt : forall r, parse_chars (quote_chars t ++ 34 :: r) = Parsed t r)
    by (intros r; apply IH; lia).
  cbn [quote_chars].
  case_eqb c 8; [cbn; rewrite IHt; reflexivity | ].
  case_eqb c 9; [cbn; rewrite IHt; reflexivity | ].
  case_eqb c 10; [cbn; rewrite IHt; reflexivity | ].
  case_eqb c 12; [cbn; rewrite IHt; reflexivity | ].
  case_eqb c 13; [cbn; rewrite IHt; reflexivity | ].
  case_eqb c 34; [cbn; rewrite IHt; reflexivity | ].
  case_eqb c 92; [cbn; rewrite IHt; reflexivity | ].
  destruct (N.ltb_spec c 32) as [Hlt | Hge].
  { rewrite <- app_assoc, parse_chars_unicode_escape by lia.
    rewrite IHt. reflexivity. }
  destruct (is_high_surrogate c) eqn:Hhi.
  { unfold is_high_surrogate in Hhi. apply andb_prop in Hhi as [_ Hhi].
    apply N.leb_le in Hhi.
    destruct t as [| d t'].
    - rewrite parse_chars_unicode_escape by lia. reflexivity.
    - destruct (is_low_surrogate d) eqn:Hlo.
      + unfold is_low_surrogate in Hlo. apply andb_prop in Hlo as [Hlo _].
        apply N.leb_le in Hlo.
        cbn [app]. rewrite !parse_chars_plain by lia.
        rewrite IH by (cbn [List.length] in Hle; lia). reflexivity.
      + rewrite <- app_assoc, parse_chars_unicode_escape by lia.
        rewrite IHt. reflexivity. }
  destruct (is_low_surrogate c) eqn:Hlo.
  { unfold is_low_surrogate in Hlo. apply andb_prop in Hlo as [_ Hlo].
    apply N.leb_le in Hlo.
    rewrite <- app_assoc, parse_chars_unicode_escape by lia.
    rewrite IHt. reflexivity. }
  cbn [app]. rewrite parse_chars_plain by lia. rewrite IHt. reflexivity.
Qed.

(** A quoted string is read back as a string value. *)
Lemma parse_chars_quote (s rest : jsstring) :
  parse_chars (quote_chars s ++ [34] ++ rest) = Parsed s rest.
Proof. apply parse_chars_quote_chars. Qed.

(** A string value is read back as it was written. *)
Lemma JSON_parse_stringify_string (s : jsstring) :
  JSON_parse (JSON_stringify (JStr s)) = Some (JStr s).
Proof.
  unfold JSON_parse, parse_text. cbn [JSON_stringify quote List.length parse_value
    skip_ws is_ws N.eqb orb Pos.eqb bind].
  change (parse_chars (quote_chars s ++ [34])) with
    (parse_chars (quote_chars s ++ 34 :: [])).
  rewrite parse_chars_quote_chars. reflexivity.
Qed.

(** A few texts.  The quotation mark is the code unit 34. *)
Example parse_number_text : JSON_parse (js "42") = Some (JNum (js "42")).
Proof. reflexivity. Qed.

Example parse_array_text :
  JSON_parse (js " [1, -2.5e3 ,true,null, []] ") =
  Some (JArr [JNum (js "1"); JNum (js "-2.5e3"); JBool true; JNull; JArr []]).
Proof. reflexivity. Qed.

(** [{"b":1,"0":2,"b":[]}]: the index comes first, and the second [b] takes
    the place of the first. *)
Example parse_object_text :
  JSON_parse
    ([123; 34] ++ js "b" ++ [34] ++ js ":1," ++ [34] ++ js "0" ++ [34] ++
     js ":2," ++ [34] ++ js "b" ++ [34] ++ js ":[]}") =
  Some (JObj [(js "0", JNum (js "2")); (js "b", JArr [])]).
Proof. reflexivity. Qed.

(** A string with an escaped line feed and an escaped code unit. *)
Example parse_escapes_text :
  JSON_parse ([34] ++ js "a\n\u00e9" ++ [34]) = Some (JStr [97; 10; 233]).
Proof. reflexivity. Qed.

Example parse_errors :
  JSON_parse (js "") = None /\
  JSON_parse (js "# Hi") = None /\
  JSON_parse (js "[1,]") = None /\
  JSON_parse (js "01") = None /\
  JSON_parse (js "{") = None /\
  JSON_parse (js "nul") = None /\
  JSON_parse (js "1 2") = None.
Proof. repeat split. Qed.

(** A quotation mark, a control character, a surrogate pair and a lone
    surrogate, as [JSON.stringify] writes them. *)
Example stringify_escapes :
  JSON_stringify (JStr [34; 1; 55357; 56832; 55357]) =
  [34; 92; 34] ++ js "\u0001" ++ [55357; 56832] ++ js "\ud83d" ++ [34].
Proof. reflexivity. Qed.

(* --------------------------------------------------------------------- *)
(** *** The parser always ends                                            *)

(** Every parser below consumes at least one code unit when it succeeds,
    and the recursion bound [S (length text)] of [JSON_parse] is never
    reached: [None] is always a syntax error. *)

Lemma bind_parsed {A B} (p : parsed A) (k : A * jsstring -> parsed B) b r :
  bind p k = Parsed b r ->
  exists a r', p = Parsed a r' /\ k (a, r') = Parsed b r.
Proof. destruct p; cbn; intros H; try discriminate. eauto. Qed.

Lemma bind_fuel {A B} (p : parsed A) (k : A * jsstring -> parsed B) :
  bind p k = Fuel ->
  p = Fuel \/ exists a r', p = Parsed a r' /\ k (a, r') = Fuel.
Proof. destruct p; cbn; intros H; try discriminate; eauto. Qed.

Lemma push_parsed {A} (a : A) p l r :
  push a p = Parsed l r -> exists l', p = Parsed l' r /\ l = a :: l'.
Proof. destruct p; cbn; intros H; inversion H; eauto. Qed.

Lemma push_fuel {A} (a : A) p : push a p = Fuel -> p = Fuel.
Proof. destruct p; cbn; congruence. Qed.

Lemma skip_ws_length (s : jsstring) :
  (List.length (skip_ws s) <= List.length s)%nat.
Proof.
  induction s as [| c t IH]; cbn; [lia | ].
  destruct (is_ws c); cbn; lia.
Qed.

Lemma skip_ws_cons (s t : jsstring) (c : code_unit) :
  skip_ws s = c :: t -> (List.length t < List.length s)%nat.
Proof.
  intros H. pose proof (skip_ws_length s) as L. rewrite H in L. cbn in L. lia.
Qed.

Lemma expect_consumes (c : code_unit) : consumes (expect c).
Proof.
  intros [| c' t] u r; cbn; try discriminate.
  destruct (c' =? c); intros H; inversion H; subst; cbn; lia.
Qed.

Lemma expect_fuel (c : code_unit) (s : jsstring) : expect c s <> Fuel.
Proof. destruct s as [| c' t]; cbn; [ | destruct (c' =? c)]; discriminate. Qed.

Lemma parse_chars_consumes : consumes parse_chars.
Proof.
  intros s. remember (List.length s) as n eqn:Hn.
  assert (Hle : (List.length s <= n)%nat) by lia. clear Hn. revert s Hle.
  induction n as [| n IH]; intros [| c t] Hle k r H; cbn in Hle, H;
    try discriminate; try lia.
  destruct (c =? 34); [inversion H; subst; cbn; lia | ].
  destruct (c =? 92).
  - destruct t as [| e t']; [discriminate | ].
    destruct (e =? 117).
    + destruct t' as [| h1 [| h2 [| h3 [| h4 t'']]]]; try discriminate.
      destruct (hex4_val h1 h2 h3 h4); [ | discriminate].
      apply push_parsed in H as (l' & H & _).
      apply IH in H; cbn in *; lia.
    + destruct (unescape e); [ | discriminate].
      apply push_parsed in H as (l' & H & _).
      apply IH in H; cbn in *; lia.
  - destruct (c <? 32); [discriminate | ].
    apply push_parsed in H as (l' & H & _).
    apply IH in H; cbn in *; lia.
Qed.

Lemma parse_chars_fuel (s : jsstring) : parse_chars s <> Fuel.
Proof.
  remember (List.length s) as n eqn:Hn.
  assert (Hle : (List.length s <= n)%nat) by lia. clear Hn. revert s Hle.
  induction n as [| n IH]; intros [| c t] Hle H; cbn in Hle, H;
    try discriminate; try lia.
  destruct (c =? 34); [discriminate | ].
  destruct (c =? 92).
  - destruct t as [| e t']; [discriminate | ].
    destruct (e =? 117).
    + destruct t' as [| h1 [| h2 [| h3 [| h4 t'']]]]; try discriminate.
      destruct (hex4_val h1 h2 h3 h4); [ | discriminate].
      apply push_fuel in H. apply IH in H; [easy | cbn in *; lia].
    + destruct (unescape e); [ | discriminate].
      apply push_fuel in H. apply IH in H; [easy | cbn in *; lia].
  - destruct (c <? 32); [discriminate | ].
    apply push_fuel in H. apply IH in H; [easy | cbn in *; lia].
Qed.

Lemma span_digits_length (s ds r : jsstring) :
  span_digits s = (ds, r) ->
  List.length s = (List.length ds + List.length r)%nat.
Proof.
  revert ds r. induction s as [| c t IH]; cbn; intros ds r H.
  - inversion H; reflexivity.
  - destruct (is_digit c).
    + destruct (span_digits t) as [ds' r'] eqn:E. inversion H; subst.
      cbn. rewrite (IH ds' r eq_refl). reflexivity.
    + inversion H; subst. reflexivity.
Qed.

Lemma digits1_consumes : consumes digits1.
Proof.
  intros s ds r. unfold digits1.
  destruct (span_digits s) as [[| d ds'] r'] eqn:E; intros H; inversion H; subst.
  apply span_digits_length in E. cbn in E. lia.
Qed.

Lemma digits1_fuel (s : jsstring) : digits1 s <> Fuel.
Proof.
  unfold digits1. destruct (span_digits s) as [[| d ds'] r']; discriminate.
Qed.

Lemma optional_sign_length (m : bool) (s sign r : jsstring) :
  optional_sign m s = (sign, r) -> (List.length r <= List.length s)%nat.
Proof.
  destruct s as [| c t]; cbn.
  - intros H; inversion H; subst; cbn; lia.
  - destruct ((c =? 45) || (negb m && (c =? 43)));
      intros H; inversion H; subst; cbn; lia.
Qed.

Lemma parse_int_consumes : consumes parse_int.
Proof.
  intros [| c t] ds r; cbn; try discriminate.
  destruct (c =? 48).
  - intros H; inversion H; subst; cbn; lia.
  - intros H. apply digits1_consumes in H. exact H.
Qed.

Lemma parse_int_fuel (s : jsstring) : parse_int s <> Fuel.
Proof.
  destruct s as [| c t]; cbn; [discriminate | ].
  destruct (c =? 48); [discriminate | apply digits1_fuel].
Qed.

Lemma parse_frac_length (s ds r : jsstring) :
  parse_frac s = Parsed ds r -> (List.length r <= List.length s)%nat.
Proof.
  destruct s as [| c t]; cbn.
  - intros H; inversion H; subst; cbn; lia.
  - destruct (c =? 46).
    + intros H. apply bind_parsed in H as (a & r' & H & K).
      apply digits1_consumes in H. inversion K; subst. cbn; lia.
    + intros H; inversion H; subst; cbn; lia.
Qed.

Lemma parse_frac_fuel (s : jsstring) : parse_frac s <> Fuel.
Proof.
  destruct s as [| c t]; cbn; [discriminate | ].
  destruct (c =? 46); [ | discriminate].
  intros H. apply bind_fuel in H as [H | (a & r' & _ & H)];
    [exact (digits1_fuel _ H) | discriminate].
Qed.

Lemma parse_exp_length (s ds r : jsstring) :
  parse_exp s = Parsed ds r -> (List.length r <= List.length s)%nat.
Proof.
  destruct s as [| c t]; cbn.
  - intros H; inversion H; subst; cbn; lia.
  - destruct ((c =? 101) || (c =? 69)).
    + destruct (optional_sign false t) as [sign t1] eqn:E.
      apply optional_sign_length in E.
      intros H. apply bind_parsed in H as (a & r' & H & K).
      apply digits1_consumes in H. inversion K; subst. cbn; lia.
    + intros H; inversion H; subst; cbn; lia.
Qed.

Lemma parse_exp_fuel (s : jsstring) : parse_exp s <> Fuel.
Proof.
  destruct s as [| c t]; cbn; [discriminate | ].
  destruct ((c =? 101) || (c =? 69)); [ | discriminate].
  destruct (optional_sign false t) as [sign t1].
  intros H. apply bind_fuel in H as [H | (a & r' & _ & H)];
    [exact (digits1_fuel _ H) | discriminate].
Qed.

Lemma parse_number_consumes : consumes parse_number.
Proof.
  intros s lit r. unfold parse_number.
  destruct (optional_sign true s) as [sign s1] eqn:E.
  apply optional_sign_length in E.
  intros H.
  apply bind_parsed in H as (int & s2 & Hint & H).
  apply bind_parsed in H as (frac & s3 & Hfrac & H).
  apply bind_parsed in H as (exp & s4 & Hexp & H).
  inversion H; subst.
  apply parse_int_consumes in Hint. apply parse_frac_length in Hfrac.
  apply parse_exp_length in Hexp. lia.
Qed.

Lemma parse_number_fuel (s : jsstring) : parse_number s <> Fuel.
Proof.
  unfold parse_number. destruct (optional_sign true s) as [sign s1].
  intros H.
  apply bind_fuel in H as [H | (int & s2 & _ & H)];
    [exact (parse_int_fuel _ H) | ].
  apply bind_fuel in H as [H | (frac & s3 & _ & H)];
    [exact (parse_frac_fuel _ H) | ].
  apply bind_fuel in H as [H | (exp & s4 & _ & H)];
    [exact (parse_exp_fuel _ H) | discriminate].
Qed.

Lemma strip_prefix_length (p s r : jsstring) :
  strip_prefix p s = Some r ->
  List.length s = (List.length p + List.length r)%nat.
Proof.
  revert s. induction p as [| a p IH]; intros [| b s]; cbn; intros H;
    try discriminate; try (inversion H; subst; reflexivity).
  destruct (a =? b); [ | discriminate].
  rewrite (IH s H). reflexivity.
Qed.

Lemma keyword_consumes (w : string) (v : json) :
  w <> EmptyString -> consumes (keyword w v).
Proof.
  intros Hw s v' r. unfold keyword.
  destruct (strip_prefix (js w) s) as [rest |] eqn:E; intros H; inversion H; subst.
  apply strip_prefix_length in E.
  destruct w as [| a w']; [congruence | ]. cbn in E. lia.
Qed.

Lemma keyword_fuel (w : string) (v : json) (s : jsstring) : keyword w v s <> Fuel.
Proof. unfold keyword. destruct (strip_prefix (js w) s); discriminate. Qed.

Section ContainerFacts.

Variable value : jsstring -> parsed json.
Variable bound : nat.
Hypothesis value_consumes : consumes value.
Hypothesis value_never_cut : never_cut value bound.

Lemma parse_member_consumes : consumes (parse_member value).
Proof.
  intros s m r H. unfold parse_member in H.
  apply bind_parsed in H as (u1 & r1 & H1 & H).
  apply bind_parsed in H as (k & r2 & H2 & H).
  apply bind_parsed in H as (u3 & r3 & H3 & H).
  apply bind_parsed in H as (v & r4 & H4 & H).
  inversion H; subst.
  apply expect_consumes in H1, H3. apply parse_chars_consumes in H2.
  apply value_consumes in H4.
  pose proof (skip_ws_length s). pose proof (skip_ws_length r2). lia.
Qed.

Lemma parse_member_fuel (s : jsstring) :
  (List.length s <= bound)%nat -> parse_member value s <> Fuel.
Proof.
  intros Hs H. unfold parse_member in H.
  apply bind_fuel in H as [H | (u1 & r1 & H1 & H)];
    [exact (expect_fuel _ _ H) | ].
  apply bind_fuel in H as [H | (k & r2 & H2 & H)];
    [exact (parse_chars_fuel _ H) | ].
  apply bind_fuel in H as [H | (u3 & r3 & H3 & H)];
    [exact (expect_fuel _ _ H) | ].
  apply bind_fuel in H as [H | (v & r4 & H4 & H)]; [ | discriminate].
  apply expect_consumes in H1, H3. apply parse_chars_consumes in H2.
  pose proof (skip_ws_length s). pose proof (skip_ws_length r2).
  apply value_never_cut in H; [exact H | lia].
Qed.

Lemma parse_members_consumes (n : nat) (acc : list (jsstring * json)) :
  consumes (parse_members value n acc).
Proof.
  revert acc. induction n as [| n IH]; intros acc s ps r H; cbn in H;
    [discriminate | ].
  destruct (skip_ws s) as [| c t] eqn:E; [discriminate | ].
  apply skip_ws_cons in E.
  destruct (c =? 125); [inversion H; subst; exact E | ].
  destruct (c =? 44); [ | discriminate].
  apply bind_parsed in H as (m & r1 & H1 & H).
  apply parse_member_consumes in H1. apply IH in H. lia.
Qed.

Lemma parse_members_fuel (n : nat) (acc : list (jsstring * json))
  (s : jsstring) :
  (List.length s < n)%nat -> (List.length s <= bound)%nat ->
  parse_members value n acc s <> Fuel.
Proof.
  revert acc s. induction n as [| n IH]; intros acc s Hn Hb H; [lia | ].
  cbn in H.
  destruct (skip_ws s) as [| c t] eqn:E; [discriminate | ].
  apply skip_ws_cons in E.
  destruct (c =? 125); [discriminate | ].
  destruct (c =? 44); [ | discriminate].
  apply bind_fuel in H as [H | (m & r1 & H1 & H)].
  - apply parse_member_fuel in H; [exact H | lia].
  - apply parse_member_consumes in H1. apply IH in H; [exact H | lia | lia].
Qed.

Lemma parse_object_consumes (n : nat) : consumes (parse_object value n).
Proof.
  intros s v r H. unfold parse_object in H.
  destruct (skip_ws s) as [| c t] eqn:E; [discriminate | ].
  apply skip_ws_cons in E.
  destruct (c =? 125); [inversion H; subst; lia | ].
  apply bind_parsed in H as (m & r1 & H1 & H).
  apply bind_parsed in H as (ps & r2 & H2 & H).
  inversion H; subst.
  apply parse_member_consumes in H1. apply parse_members_consumes in H2. lia.
Qed.

Lemma parse_object_fuel (n : nat) (s : jsstring) :
  (List.length s < n)%nat -> (List.length s <= bound)%nat ->
  parse_object value n s <> Fuel.
Proof.
  intros Hn Hb H. unfold parse_object in H.
  destruct (skip_ws s) as [| c t] eqn:E; [discriminate | ].
  destruct (c =? 125); [discriminate | ].
  apply bind_fuel in H as [H | (m & r1 & H1 & H)].
  - apply parse_member_fuel in H; [exact H | lia].
  - apply parse_member_consumes in H1.
    apply bind_fuel in H as [H | (ps & r2 & _ & H)]; [ | discriminate].
    apply parse_members_fuel in H; [exact H | lia | lia].
Qed.

Lemma parse_elements_consumes (n : nat) (acc : list json) :
  consumes (parse_elements value n acc).
Proof.
  revert acc. induction n as [| n IH]; intros acc s vs r H; cbn in H;
    [discriminate | ].
  destruct (skip_ws s) as [| c t] eqn:E; [discriminate | ].
  apply skip_ws_cons in E.
  destruct (c =? 93); [inversion H; subst; exact E | ].
  destruct (c =? 44); [ | discriminate].
  apply bind_parsed in H as (v & r1 & H1 & H).
  apply value_consumes in H1. apply IH in H. lia.
Qed.

Lemma parse_elements_fuel (n : nat) (acc : list json) (s : jsstring) :
  (List.length s < n)%nat -> (List.length s <= bound)%nat ->
  parse_elements value n acc s <> Fuel.
Proof.
  revert acc s. induction n as [| n IH]; intros acc s Hn Hb H; [lia | ].
  cbn in H.
  destruct (skip_ws s) as [| c t] eqn:E; [discriminate | ].
  apply skip_ws_cons in E.
  destruct (c =? 93); [discriminate | ].
  destruct (c =? 44); [ | discriminate].
  apply bind_fuel in H as [H | (v & r1 & H1 & H)].
  - apply value_never_cut in H; [exact H | lia].
  - apply value_consumes in H1. apply IH in H; [exact H | lia | lia].
Qed.

Lemma parse_array_consumes (n : nat) : consumes (parse_array value n).
Proof.
  intros s v r H. unfold parse_array in H.
  destruct (skip_ws s) as [| c t] eqn:E; [discriminate | ].
  apply skip_ws_cons in E.
  destruct (c =? 93); [inversion H; subst; lia | ].
  apply bind_parsed in H as (v1 & r1 & H1 & H).
  apply bind_parsed in H as (vs & r2 & H2 & H).
  inversion H; subst.
  apply value_consumes in H1. apply parse_elements_consumes in H2. lia.
Qed.

Lemma parse_array_fuel (n : nat) (s : jsstring) :
  (List.length s < n)%nat -> (List.length s < bound)%nat ->
  parse_array value n s <> Fuel.
Proof.
  intros Hn Hb H. unfold parse_array in H.
  destruct (skip_ws s) as [| c t] eqn:E; [discriminate | ].
  destruct (c =? 93); [discriminate | ].
  apply bind_fuel in H as [H | (v1 & r1 & H1 & H)].
  - apply value_never_cut in H; [exact H | lia].
  - apply value_consumes in H1.
    apply bind_fuel in H as [H | (vs & r2 & _ & H)]; [ | discriminate].
    apply parse_elements_fuel in H; [exact H | lia | lia].
Qed.

End ContainerFacts.

Lemma parse_value_consumes (n : nat) : consumes (parse_value n).
Proof.
  induction n as [| n IH]; intros s v r H; cbn in H; [discriminate | ].
  destruct (skip_ws s) as [| c t] eqn:E; [discriminate | ].
  pose proof (skip_ws_length s) as L. rewrite E in L. cbn in L.
  destruct (c =? 123).
  { apply (parse_object_consumes _ IH) in H. lia. }
  destruct (c =? 91).
  { apply (parse_array_consumes _ IH) in H. lia. }
  destruct (c =? 34).
  { apply bind_parsed in H as (k & r1 & H1 & H). inversion H; subst.
    apply parse_chars_consumes in H1. lia. }
  destruct (c =? 116).
  { apply keyword_consumes in H; [cbn in H; lia | discriminate]. }
  destruct (c =? 102).
  { apply keyword_consumes in H; [cbn in H; lia | discriminate]. }
  destruct (c =? 110).
  { apply keyword_consumes in H; [cbn in H; lia | discriminate]. }
  destruct ((c =? 45) || is_digit c); [ | discriminate].
  apply bind_parsed in H as (lit & r1 & H1 & H). inversion H; subst.
  apply parse_number_consumes in H1. cbn in H1. lia.
Qed.

Lemma parse_value_fuel (n : nat) : never_cut (parse_value n) n.
Proof.
  induction n as [| n IH]; intros s Hs H; [lia | ]. cbn in H.
  destruct (skip_ws s) as [| c t] eqn:E; [discriminate | ].
  apply skip_ws_cons in E.
  destruct (c =? 123).
  { apply (parse_object_fuel _ n (parse_value_consumes n) IH) in H;
      [exact H | lia | lia]. }
  destruct (c =? 91).
  { apply (parse_array_fuel _ n (parse_value_consumes n) IH) in H;
      [exact H | lia | lia]. }
  destruct (c =? 34).
  { apply bind_fuel in H as [H | (k & r1 & _ & H)];
      [exact (parse_chars_fuel _ H) | discriminate]. }
  destruct (c =? 116); [exact (keyword_fuel _ _ _ H) | ].
  destruct (c =? 102); [exact (keyword_fuel _ _ _ H) | ].
  destruct (c =? 110); [exact (keyword_fuel _ _ _ H) | ].
  destruct ((c =? 45) || is_digit c); [ | discriminate].
  apply bind_fuel in H as [H | (lit & r1 & _ & H)];
    [exact (parse_number_fuel _ H) | discriminate].
Qed.

(* --------------------------------------------------------------------- *)
(** *** The bound does not matter                                         *)

(** A parse that was not cut short gives the same result under any larger
    bound: [JSON_parse] does not depend on the bound it is given. *)

Lemma bind_not_fuel {A B} (p : parsed A) (k : A * jsstring -> parsed B) :
  bind p k <> Fuel ->
  p <> Fuel /\ forall a r, p = Parsed a r -> k (a, r) <> Fuel.
Proof.
  destruct p; cbn; intros H; split; congruence.
Qed.

Lemma bind_ext {A B} (p q : parsed A) (k l : A * jsstring -> parsed B) :
  q = p -> (forall a r, p = Parsed a r -> l (a, r) = k (a, r)) ->
  bind q l = bind p k.
Proof. intros -> H. destruct p; cbn; auto. Qed.

Section MoreFuel.

Variables value value' : jsstring -> parsed json.
Hypothesis value_stable : forall s, value s <> Fuel -> value' s = value s.

Lemma parse_member_stable (s : jsstring) :
  parse_member value s <> Fuel -> parse_member value' s = parse_member value s.
Proof.
  unfold parse_member. intros H.
  apply bind_not_fuel in H as [_ H].
  apply bind_ext; [reflexivity | intros u1 r1 E1]. specialize (H _ _ E1).
  apply bind_not_fuel in H as [_ H].
  apply bind_ext; [reflexivity | intros k r2 E2]. specialize (H _ _ E2).
  apply bind_not_fuel in H as [_ H].
  apply bind_ext; [reflexivity | intros u3 r3 E3]. specialize (H _ _ E3).
  apply bind_not_fuel in H as [H _].
  apply bind_ext; [apply value_stable; exact H | reflexivity].
Qed.

Lemma parse_members_stable (n m : nat) (acc : list (jsstring * json))
  (s : jsstring) :
  (n <= m)%nat ->
  parse_members value n acc s <> Fuel ->
  parse_members value' m acc s = parse_members value n acc s.
Proof.
  revert m acc s. induction n as [| n IH]; intros m acc s Hm H;
    [cbn in H; congruence | ].
  destruct m as [| m]; [lia | ]. cbn in H |- *.
  destruct (skip_ws s) as [| c t]; [reflexivity | ].
  destruct (c =? 125); [reflexivity | ].
  destruct (c =? 44); [ | reflexivity].
  apply bind_not_fuel in H as [H1 H2].
  apply bind_ext; [apply parse_member_stable; exact H1 | ].
  intros a r E. apply IH; [lia | exact (H2 _ _ E)].
Qed.

Lemma parse_object_stable (n m : nat) (s : jsstring) :
  (n <= m)%nat ->
  parse_object value n s <> Fuel ->
  parse_object value' m s = parse_object value n s.
Proof.
  intros Hm H. unfold parse_object in *.
  destruct (skip_ws s) as [| c t]; [reflexivity | ].
  destruct (c =? 125); [reflexivity | ].
  apply bind_not_fuel in H as [H1 H2].
  apply bind_ext; [apply parse_member_stable; exact H1 | ].
  intros a r E. specialize (H2 _ _ E).
  apply bind_not_fuel in H2 as [H2 _].
  apply bind_ext; [apply parse_members_stable; assumption | reflexivity].
Qed.

Lemma parse_elements_stable (n m : nat) (acc : list json) (s : jsstring) :
  (n <= m)%nat ->
  parse_elements value n acc s <> Fuel ->
  parse_elements value' m acc s = parse_elements value n acc s.
Proof.
  revert m acc s. induction n as [| n IH]; intros m acc s Hm H;
    [cbn in H; congruence | ].
  destruct m as [| m]; [lia | ]. cbn in H |- *.
  destruct (skip_ws s) as [| c t]; [reflexivity | ].
  destruct (c =? 93); [reflexivity | ].
  destruct (c =? 44); [ | reflexivity].
  apply bind_not_fuel in H as [H1 H2].
  apply bind_ext; [apply value_stable; exact H1 | ].
  intros a r E. apply IH; [lia | exact (H2 _ _ E)].
Qed.

Lemma parse_array_stable (n m : nat) (s : jsstring) :
  (n <= m)%nat ->
  parse_array value n s <> Fuel ->
  parse_array value' m s = parse_array value n s.
Proof.
  intros Hm H. unfold parse_array in *.
  destruct (skip_ws s) as [| c t]; [reflexivity | ].
  destruct (c =? 93); [reflexivity | ].
  apply bind_not_fuel in H as [H1 H2].
  apply bind_ext; [apply value_stable; exact H1 | ].
  intros a r E. specialize (H2 _ _ E).
  apply bind_not_fuel in H2 as [H2 _].
  apply bind_ext; [apply parse_elements_stable; assumption | reflexivity].
Qed.

End MoreFuel.

Lemma parse_value_stable (n m : nat) (s : jsstring) :
  (n <= m)%nat ->
  parse_value n s <> Fuel ->
  parse_value m s = parse_value n s.
Proof.
  revert m s. induction n as [| n IH]; intros m s Hm H;
    [cbn in H; congruence | ].
  destruct m as [| m]; [lia | ]. cbn in H |- *.
  assert (IH' : forall s', parse_value n s' <> Fuel ->
                           parse_value m s' = parse_value n s')
    by (intros s'; apply IH; lia).
  destruct (skip_ws s) as [| c t]; [reflexivity | ].
  destruct (c =? 123).
  { apply parse_object_stable; [exact IH' | lia | exact H]. }
  destruct (c =? 91).
  { apply parse_array_stable; [exact IH' | lia | exact H]. }
  reflexivity.
Qed.

(** Any bound above the length of the text gives the result of
    [JSON_parse]. *)
Lemma JSON_parse_any_bound (n : nat) (text : jsstring) :
  (List.length text < n)%nat ->
  JSON_parse text =
  match parse_text n text with
  | Parsed v _ => Some v
  | Unexpected | Fuel => None
  end.
Proof.
  intros Hn. unfold JSON_parse, parse_text.
  rewrite (parse_value_stable (S (List.length text)) n text);
    [reflexivity | lia | ].
  apply parse_value_fuel. lia.
Qed.

(** [JSON.parse] never stops for want of recursion depth: it returns a value
    or finds a syntax error. *)
Lemma parse_text_fuel (text : jsstring) :
  parse_text (S (List.length text)) text <> Fuel.
Proof.
  unfold parse_text. intros H.
  apply bind_fuel in H as [H | (v & r & _ & H)].
  - apply parse_value_fuel in H; [exact H | lia].
  - destruct (skip_ws r); discriminate.
Qed.

Lemma JSON_parse_syntax_error (text : jsstring) :
  JSON_parse text = None <->
  parse_text (S (List.length text)) text = Unexpected.
Proof.
  unfold JSON_parse. pose proof (parse_text_fuel text) as F.
  destruct (parse_text (S (List.length text)) text); split; intros H;
    congruence.
Qed.

End JSONFacts.

(* ===================================================================== *)
(** ** Properties of the handlers                                         *)
(* ===================================================================== *)

Module Handlers.
Import JS App JSONFacts.

(* --------------------------------------------------------------------- *)
(** *** Writing a note and reading it back                                *)

(** The text that [JSON.stringify] writes for an object of two strings. *)
Lemma stringify_two_strings (k1 v1 k2 v2 : jsstring) :
  JSON_stringify (JObj [(k1, JStr v1); (k2, JStr v2)]) =
  [123; 34] ++ quote_chars k1 ++ [34; 58; 34] ++ quote_chars v1 ++
  [34; 44; 34] ++ quote_chars k2 ++ [34; 58; 34] ++ quote_chars v2 ++ [34; 125].
Proof.
  cbn. unfold quote. cbn.
  repeat (rewrite <- app_assoc; cbn). reflexivity.
Qed.

Lemma str_eqb_neq (a b : jsstring) : a <> b -> str_eqb a b = false.
Proof. intros H. unfold str_eqb. destruct (jsstring_dec a b); congruence. Qed.

Lemma parse_value_two_strings (k1 v1 k2 v2 : jsstring) (n : nat) :
  k2 <> k1 -> array_index k2 = None ->
  parse_value (S (S (S n))) (JSON_stringify (JObj [(k1, JStr v1); (k2, JStr v2)])) =
  Parsed (JObj [(k1, JStr v1); (k2, JStr v2)]) [].
Proof.
  intros Hk Hi. rewrite stringify_two_strings.
  cbn. rewrite parse_chars_quote_chars. cbn.
  rewrite parse_chars_quote_chars. cbn.
  rewrite parse_chars_quote_chars. cbn.
  rewrite parse_chars_quote_chars. cbn.
  unfold define. cbn. rewrite (str_eqb_neq _ _ Hk), Hi. reflexivity.
Qed.

Lemma JSON_parse_two_strings (k1 v1 k2 v2 : jsstring) :
  k2 <> k1 -> array_index k2 = None ->
  JSON_parse (JSON_stringify (JObj [(k1, JStr v1); (k2, JStr v2)])) =
  Some (JObj [(k1, JStr v1); (k2, JStr v2)]).
Proof.
  intros Hk Hi. unfold JSON_parse, parse_text.
  destruct (List.length (JSON_stringify (JObj [(k1, JStr v1); (k2, JStr v2)])))
    as [| [| n]] eqn:E.
  - rewrite stringify_two_strings in E. discriminate.
  - rewrite stringify_two_strings in E. discriminate.
  - rewrite (parse_value_two_strings _ _ _ _ n Hk Hi). reflexivity.
Qed.

(** Serialize-then-deserialize gives the title and the body back. *)
Lemma deserialize_stringify (v : json) (title body : jsstring) :
  is_note v title body ->
  deserialize (JSON_stringify v) = Some (title, body).
Proof.
  intros [-> | ->]; unfold deserialize, note;
    rewrite JSON_parse_two_strings by (reflexivity || discriminate);
    reflexivity.
Qed.

Lemma member_file_name (v : json) (title body : jsstring) :
  is_note v title body -> member k_file_name v = inr (Some (JStr title)).
Proof. intros [-> | ->]; reflexivity. Qed.

Lemma upsert_In (r : PersistedRecord) (db : list PersistedRecord) :
  In r (upsert r db).
Proof.
  induction db as [| x t IH]; cbn; [auto | ].
  destruct (str_eqb (f_uuid x) (f_uuid r)); cbn; auto.
Qed.

(** The backend of the specification answers [save_file] with a list that
    holds the record it was given. *)
Lemma upsert_backend_holds_record (db : list PersistedRecord)
  (fileName : option json) (u text : jsstring) (data : list PersistedRecord) :
  upsert_backend db (save_file fileName u text) = Resolved data ->
  In {| f_uuid := u; f_content := text |} data.
Proof. cbn. intros H. inversion H. apply upsert_In. Qed.

(* --------------------------------------------------------------------- *)
(** *** The handlers in the event loop                                    *)

Lemma remove_nth_last {A} (l : list A) (x : A) :
  remove_nth (List.length l) (l ++ [x]) = l.
Proof. induction l as [| y t IH]; cbn; [ | rewrite IH]; reflexivity. Qed.

Lemma nth_error_last {A} (l : list A) (x : A) :
  nth_error (l ++ [x]) (List.length l) = Some x.
Proof. induction l as [| y t IH]; cbn; auto. Qed.

(** Settling the call that a click has just made, before anything else
    happens, is the handler run to its end. *)
Lemma settle_after_call (c : Command) (r : Response) (st : State) :
  step (Settle (List.length (outstanding st)) r) (call c st) = Some (resume r st).
Proof.
  unfold step, call. cbn [outstanding set_outstanding].
  rewrite nth_error_last, remove_nth_last.
  destruct r; cbn; unfold set_files, set_outstanding; cbn;
    destruct st; reflexivity.
Qed.

Lemma save_in_two_steps (fresh : jsstring) (backend : Command -> Response)
  (st : State) (c : Command) :
  onClickSave_call fresh (file st) = inr c ->
  step (ClickSave fresh) st = Some (call c st, Awaiting) /\
  step (Settle (List.length (outstanding st)) (backend c)) (call c st) =
  Some (onClickSave fresh backend st).
Proof.
  intros H. split.
  - cbn. rewrite H. reflexivity.
  - rewrite settle_after_call. unfold onClickSave. rewrite H. reflexivity.
Qed.

Lemma load_in_two_steps (backend : Command -> Response) (st : State) :
  step ClickLoad st = Some (call onClick_call st, Awaiting) /\
  step (Settle (List.length (outstanding st)) (backend onClick_call))
    (call onClick_call st) = Some (onClick backend st).
Proof. split; [reflexivity | apply settle_after_call]. Qed.

(** Of these events, only the click on a list item writes the store. *)
Lemma step_keeps_file (ev : Event) (st st' : State) (c : Completion) :
  step ev st = Some (st', c) ->
  (forall f, ev <> ClickItem f) ->
  file st' = file st.
Proof.
  intros H Hev. destruct ev as [fresh | | f | i r]; cbn in H.
  - destruct (onClickSave_call fresh (file st)); inversion H; reflexivity.
  - inversion H; reflexivity.
  - destruct (Hev f eq_refl).
  - destruct (nth_error (outstanding st) i); [ | discriminate].
    destruct r; inversion H; reflexivity.
Qed.

(** A call that fails changes neither the store nor the list, whatever
    happened between the click and the failure. *)
Lemma settle_rejected (i : nat) (e : jsstring) (st st' : State) (c : Completion) :
  step (Settle i (Rejected e)) st = Some (st', c) ->
  file st' = file st /\ files st' = files st /\ c = Failed (BackendError e).
Proof.
  cbn. destruct (nth_error (outstanding st) i); [ | discriminate].
  intros H; inversion H; auto.
Qed.

(* --------------------------------------------------------------------- *)
(** *** Saving                                                            *)

(** C1, at the first save of the empty note.  Line 25 takes the identifier
    of the store, or generates one, so that a note is saved under one
    identifier; the backend accepts the call, and yet the identifier of the
    store is still empty afterwards, where it should be the generated one:
    the handler never writes it back. *)
Lemma save_leaves_uuid_empty :
  uuid (file init) = [] /\
  uuid1 <> [] /\
  snd (onClickSave uuid1 (upsert_backend []) init) = Fulfilled /\
  uuid (file (fst (onClickSave uuid1 (upsert_backend []) init))) = [] /\
  uuid (file (fst (onClickSave uuid1 (upsert_backend []) init))) <> uuid1.
Proof. repeat split; (reflexivity || discriminate). Qed.

(** What follows from it: two clicks on Save for one new note, the backend
    keeping what the first click stored, send two identifiers, and the
    backend holds two records of the one note. *)
Example two_saves_two_records :
  let first := fst (onClickSave uuid1 (upsert_backend []) init) in
  let second := fst (onClickSave uuid2 (upsert_backend (files first)) first) in
  map f_uuid (files first) = [uuid1] /\
  map f_uuid (files second) = [uuid1; uuid2].
Proof. split; reflexivity. Qed.

(** C3.  If the backend rejects the call that [onClickSave] makes, the
    handler fails with the error of the backend, and the state (the store
    and the list of files) is exactly the state before the click. *)
Theorem save_failure_keeps_state (st : State) (fresh : jsstring)
  (backend : Command -> Response) (c : Command) (e : jsstring) :
  onClickSave_call fresh (file st) = inr c ->
  backend c = Rejected e ->
  onClickSave fresh backend st = (st, Failed (BackendError e)) /\
  file (fst (onClickSave fresh backend st)) = file st /\
  files (fst (onClickSave fresh backend st)) = files st.
Proof.
  intros Hc Hb. unfold onClickSave. rewrite Hc. cbn. rewrite Hb. auto.
Qed.

Lemma save_failure_keeps_state_witness :
  onClickSave uuid1 (broken (js "disk full")) init =
  (init, Failed (BackendError (js "disk full"))) /\
  file (fst (onClickSave uuid1 (broken (js "disk full")) init)) = file init /\
  files (fst (onClickSave uuid1 (broken (js "disk full")) init)) = files init.
Proof.
  apply (save_failure_keeps_state init uuid1 (broken (js "disk full"))
           (save_file (Some (JStr [])) uuid1 (JSON_stringify (note [] [])))
           (js "disk full")); reflexivity.
Defined.

(** C10.  Whatever the backend answers, and also when the handler throws
    before calling it, [onClickSave] leaves the store as it was: the title
    and the body of the note (and its identifier) are unchanged. *)
Theorem save_keeps_note (st : State) (fresh : jsstring)
  (backend : Command -> Response) :
  file (fst (onClickSave fresh backend st)) = file st /\
  member k_file_name (content (file (fst (onClickSave fresh backend st)))) =
    member k_file_name (content (file st)) /\
  member k_content (content (file (fst (onClickSave fresh backend st)))) =
    member k_content (content (file st)).
Proof.
  assert (H : file (fst (onClickSave fresh backend st)) = file st).
  { unfold onClickSave. destruct (onClickSave_call fresh (file st)) as [e | c];
      [reflexivity | ]. destruct (backend c); reflexivity. }
  rewrite H. auto.
Qed.

(** C6.  With the identifier empty and the note of title [title] and body
    [body] in the store, if the backend accepts the call of [onClickSave]
    and answers as an upsert that returns the full list, with a list that
    holds the record it was given, then [files] holds after the save a
    record, under the generated identifier, whose content deserializes to
    [title] and [body]. *)
Theorem save_round_trip (st : State) (fresh : jsstring)
  (backend : Command -> Response) (title body : jsstring)
  (fileName : option json) (u text : jsstring) (data : list PersistedRecord) :
  uuid (file st) = [] ->
  is_note (content (file st)) title body ->
  onClickSave_call fresh (file st) = inr (save_file fileName u text) ->
  backend (save_file fileName u text) = Resolved data ->
  In {| f_uuid := u; f_content := text |} data ->
  snd (onClickSave fresh backend st) = Fulfilled /\
  exists r,
    In r (files (fst (onClickSave fresh backend st))) /\
    f_uuid r = fresh /\
    deserialize (f_content r) = Some (title, body).
Proof.
  intros Hu Hn Hc Hb Hin. unfold onClickSave. rewrite Hc, Hb. cbn.
  split; [reflexivity | ].
  unfold onClickSave_call in Hc.
  rewrite (member_file_name _ _ _ Hn), Hu in Hc. cbn [or_else] in Hc.
  injection Hc as _ Hfresh Htext.
  exists {| f_uuid := u; f_content := text |}.
  cbn. split; [exact Hin | split; [symmetry; exact Hfresh | ]].
  rewrite <- Htext. apply deserialize_stringify. exact Hn.
Qed.

Lemma save_round_trip_witness :
  snd (onClickSave uuid1 (upsert_backend [])
         (set_file {| uuid := []; content := note (js "T") (js "# Hi") |} init)) =
  Fulfilled /\
  exists r,
    In r (files (fst (onClickSave uuid1 (upsert_backend [])
                        (set_file {| uuid := []; content := note (js "T") (js "# Hi") |} init)))) /\
    f_uuid r = uuid1 /\
    deserialize (f_content r) = Some (js "T", js "# Hi").
Proof.
  apply (save_round_trip
           (set_file {| uuid := []; content := note (js "T") (js "# Hi") |} init)
           uuid1 (upsert_backend []) (js "T") (js "# Hi")
           (Some (JStr (js "T"))) uuid1
           (JSON_stringify (note (js "T") (js "# Hi")))
           [{| f_uuid := uuid1;
               f_content := JSON_stringify (note (js "T") (js "# Hi")) |}]).
  - reflexivity.
  - left. reflexivity.
  - reflexivity.
  - reflexivity.
  - left. reflexivity.
Defined.

(* --------------------------------------------------------------------- *)
(** *** Loading                                                           *)

(** C8.  If the backend rejects [get_files], [onClick] fails with the error
    of the backend and the state, the list of files included, is exactly as
    before; if it answers with a list, that list replaces [files] whole. *)
Theorem load_keeps_or_replaces (st : State) (backend : Command -> Response)
  (r : Response) :
  backend get_files = r ->
  match r with
  | Rejected e =>
      onClick backend st = (st, Failed (BackendError e)) /\
      files (fst (onClick backend st)) = files st
  | Resolved data =>
      onClick backend st = (set_files data st, Fulfilled) /\
      files (fst (onClick backend st)) = data
  end.
Proof.
  intros H. unfold onClick, onClick_call. rewrite H.
  destruct r; cbn; auto.
Qed.

Lemma load_keeps_or_replaces_witness :
  (onClick (broken (js "offline")) mounted =
     (mounted, Failed (BackendError (js "offline"))) /\
   files (fst (onClick (broken (js "offline")) mounted)) = files mounted) /\
  (onClick (upsert_backend [{| f_uuid := uuid1; f_content := js "{}" |}]) mounted =
     (set_files [{| f_uuid := uuid1; f_content := js "{}" |}] mounted, Fulfilled) /\
   files (fst (onClick (upsert_backend [{| f_uuid := uuid1; f_content := js "{}" |}])
                 mounted)) =
   [{| f_uuid := uuid1; f_content := js "{}" |}]).
Proof.
  split.
  - apply (load_keeps_or_replaces mounted (broken (js "offline"))
             (Rejected (js "offline"))).
    reflexivity.
  - apply (load_keeps_or_replaces mounted
             (upsert_backend [{| f_uuid := uuid1; f_content := js "{}" |}])
             (Resolved [{| f_uuid := uuid1; f_content := js "{}" |}])).
    reflexivity.
Defined.

(* --------------------------------------------------------------------- *)
(** *** Selecting                                                         *)

(** C5, as the specification states it, at a record whose content is the
    text [42]: it does not deserialize into a title and a body, and yet the
    handler returns and the store holds the number. *)
Lemma select_number_replaces_note :
  deserialize (js "42") = None /\
  select {| f_uuid := uuid1; f_content := js "42" |} init =
  (set_file {| uuid := uuid1; content := JNum (js "42") |} init, Fulfilled) /\
  file (fst (select {| f_uuid := uuid1; f_content := js "42" |} init)) <>
  file init.
Proof. repeat split. discriminate. Qed.

(** C5, amended.  For a record whose content is not JSON text, so that
    [JSON.parse] throws, the handler fails with that SyntaxError and the
    state, the store included, is exactly as before. *)
Theorem select_syntax_error (f : PersistedRecord) (st : State) :
  JSON_parse (f_content f) = None ->
  select f st = (st, Failed SyntaxError) /\
  file (fst (select f st)) = file st.
Proof.
  intros H. unfold select. rewrite H. auto.
Qed.

Lemma select_syntax_error_witness :
  JSON_parse (js "# Hi") = None /\
  select {| f_uuid := uuid1; f_content := js "# Hi" |} init =
  (init, Failed SyntaxError) /\
  file (fst (select {| f_uuid := uuid1; f_content := js "# Hi" |} init)) =
  file init.
Proof.
  split; [reflexivity | ].
  apply (select_syntax_error {| f_uuid := uuid1; f_content := js "# Hi" |} init).
  reflexivity.
Defined.

(** C7.  For a record whose content [JSON.parse] accepts, the first click
    puts the identifier of the record and the parsed content in the store,
    and the second click leaves exactly that state. *)
Theorem select_twice (f : PersistedRecord) (st : State) (v : json) :
  JSON_parse (f_content f) = Some v ->
  file (fst (select f st)) = {| uuid := f_uuid f; content := v |} /\
  snd (select f st) = Fulfilled /\
  select f (fst (select f st)) = (fst (select f st), Fulfilled) /\
  file (fst (select f (fst (select f st)))) = file (fst (select f st)).
Proof.
  intros H. unfold select. rewrite H. cbn. auto.
Qed.

Lemma select_twice_witness :
  JSON_parse (js "[]") = Some (JArr []) /\
  file (fst (select {| f_uuid := uuid1; f_content := js "[]" |} mounted)) =
    {| uuid := uuid1; content := JArr [] |} /\
  file (fst (select {| f_uuid := uuid1; f_content := js "[]" |}
               (fst (select {| f_uuid := uuid1; f_content := js "[]" |} mounted)))) =
  file (fst (select {| f_uuid := uuid1; f_content := js "[]" |} mounted)).
Proof.
  pose proof (select_twice {| f_uuid := uuid1; f_content := js "[]" |} mounted
                (JArr []) eq_refl) as (H1 & _ & _ & H4).
  split; [reflexivity | split; [exact H1 | exact H4]].
Defined.

(* --------------------------------------------------------------------- *)
(** *** Requests while a call is outstanding                              *)

(** C2, as the specification states it, in the state the component is in
    once its script has run, with the load of line 40 outstanding: a click
    on Save is not turned down, its call goes out too, and two calls are
    outstanding. *)
Lemma second_call_goes_out :
  idle mounted = false /\
  step (ClickSave uuid1) mounted =
  Some (call (save_file (Some (JStr [])) uuid1 (JSON_stringify (note [] [])))
          mounted, Awaiting) /\
  outstanding
    (call (save_file (Some (JStr [])) uuid1 (JSON_stringify (note [] [])))
       mounted) =
  [get_files; save_file (Some (JStr [])) uuid1 (JSON_stringify (note [] []))].
Proof. repeat split. Qed.

(** C2, amended.  In every state, with calls outstanding or not, a request
    to load, and a request to save the note that the store holds, is not
    turned down: its call, [get_files] or [save_file] with the title, the
    identifier and the text of the note, goes out at once and is one more
    outstanding call, and the store and the list of files are as before. *)
Theorem request_goes_out (ev : Event) (st : State) (c : Command) :
  sends ev st c ->
  step ev st = Some (call c st, Awaiting) /\
  outstanding (call c st) = outstanding st ++ [c] /\
  List.length (outstanding (call c st)) = S (List.length (outstanding st)) /\
  file (call c st) = file st /\
  files (call c st) = files st.
Proof.
  intros H.
  assert (L : List.length (outstanding (call c st)) =
              S (List.length (outstanding st))).
  { cbn. rewrite length_app. cbn. lia. }
  destruct ev as [fresh | | f | i r]; cbn in H; try contradiction.
  - destruct H as (title & body & Hn & ->).
    unfold step, onClickSave_call.
    rewrite (member_file_name _ _ _ Hn). repeat split. exact L.
  - subst c. repeat split. exact L.
Qed.

Lemma request_goes_out_witness :
  step (ClickSave uuid1) mounted =
    Some (call (save_file (Some (JStr [])) uuid1 (JSON_stringify (note [] [])))
            mounted, Awaiting) /\
  outstanding
    (call (save_file (Some (JStr [])) uuid1 (JSON_stringify (note [] [])))
       mounted) =
    outstanding mounted ++
    [save_file (Some (JStr [])) uuid1 (JSON_stringify (note [] []))] /\
  List.length
    (outstanding
       (call (save_file (Some (JStr [])) uuid1 (JSON_stringify (note [] [])))
          mounted)) = S (List.length (outstanding mounted)) /\
  file (call (save_file (Some (JStr [])) uuid1 (JSON_stringify (note [] [])))
          mounted) = file mounted /\
  files (call (save_file (Some (JStr [])) uuid1 (JSON_stringify (note [] [])))
           mounted) = files mounted.
Proof.
  apply (request_goes_out (ClickSave uuid1) mounted
           (save_file (Some (JStr [])) uuid1 (JSON_stringify (note [] [])))).
  exists [], []. split; [left; reflexivity | reflexivity].
Defined.

End Handlers.

(* ===================================================================== *)
(** ** Properties of sessions                                             *)
(* ===================================================================== *)

Module Sessions.
Import JS App Editor JSONFacts Handlers.

(** The text written for a note is read back as the note. *)
Lemma JSON_parse_stringify_note (v : json) (title body : jsstring) :
  is_note v title body -> JSON_parse (JSON_stringify v) = Some v.
Proof.
  intros [-> | ->]; unfold note;
    apply JSON_parse_two_strings; (reflexivity || discriminate).
Qed.

Lemma call_of_note (fresh : jsstring) (n : Note) (title body : jsstring) :
  is_note (content n) title body ->
  onClickSave_call fresh n =
  inr (save_file (Some (JStr title)) (or_else (uuid n) fresh)
         (JSON_stringify (content n))).
Proof.
  intros H. unfold onClickSave_call.
  rewrite (member_file_name _ _ _ H). reflexivity.
Qed.

Lemma assign_title_note (v : json) (title body text : jsstring) :
  is_note v title body ->
  exists v', assign k_file_name text v = Some (inr v') /\ is_note v' text body.
Proof.
  intros [-> | ->]; eexists; (split; [reflexivity | ]);
    [left | right]; reflexivity.
Qed.

Lemma assign_body_note (v : json) (title body text : jsstring) :
  is_note v title body ->
  exists v', assign k_content text v = Some (inr v') /\ is_note v' title text.
Proof.
  intros [-> | ->]; eexists; (split; [reflexivity | ]);
    [left | right]; reflexivity.
Qed.

(** One action that is no click on a list item: the store still holds a
    note, under the same identifier, with what was typed. *)
Lemma act_keeps_note (a : Action) (st st' : State) (c : Completion)
  (title body : jsstring) :
  is_item_click a = false ->
  is_note (content (file st)) title body ->
  act a st = Some (st', c) ->
  is_note (content (file st')) (typed_title [a] title) (typed_body [a] body) /\
  uuid (file st') = uuid (file st).
Proof.
  intros Ha Hn H.
  destruct a as [ev | text | text]; cbn [act] in H;
    cbn [typed_title typed_body].
  - assert (E : file st' = file st).
    { apply (step_keeps_file ev st st' c H).
      intros f ->. discriminate. }
    rewrite E. auto.
  - unfold on_input in H.
    destruct (assign_title_note _ _ _ text Hn) as (v' & E & Hn').
    rewrite E in H. inversion H; subst. cbn. auto.
  - unfold on_input in H.
    destruct (assign_body_note _ _ _ text Hn) as (v' & E & Hn').
    rewrite E in H. inversion H; subst. cbn. auto.
Qed.

Lemma typed_title_cons (a : Action) (rest : list Action) (title : jsstring) :
  typed_title (a :: rest) title = typed_title rest (typed_title [a] title).
Proof. destruct a as [ev | text | text]; reflexivity. Qed.

Lemma typed_body_cons (a : Action) (rest : list Action) (body : jsstring) :
  typed_body (a :: rest) body = typed_body rest (typed_body [a] body).
Proof. destruct a as [ev | text | text]; reflexivity. Qed.

Lemma run_keeps_note (acts : list Action) (st st' : State)
  (title body : jsstring) :
  no_item_click acts = true ->
  is_note (content (file st)) title body ->
  run acts st = Some st' ->
  is_note (content (file st')) (typed_title acts title) (typed_body acts body) /\
  uuid (file st') = uuid (file st).
Proof.
  revert st title body.
  induction acts as [| a rest IH]; intros st title body Hq Hn H.
  - inversion H; subst. auto.
  - cbn in Hq. apply andb_prop in Hq as [Ha Hq].
    apply negb_true_iff in Ha.
    cbn [run] in H. destruct (act a st) as [[st1 c] |] eqn:E; [ | discriminate].
    destruct (act_keeps_note a st st1 c title body Ha Hn E) as [Hn1 Hu1].
    destruct (IH st1 _ _ Hq Hn1 H) as [Hn' Hu'].
    rewrite typed_title_cons, typed_body_cons. split; [exact Hn' | congruence].
Qed.

Lemma act_keeps_files (a : Action) (st st' : State) (c : Completion) :
  is_resolved a = false ->
  act a st = Some (st', c) ->
  files st' = files st.
Proof.
  intros Ha H.
  destruct a as [[fresh | | f | i r] | text | text]; cbn [act step] in H.
  - destruct (onClickSave_call fresh (file st)); inversion H; reflexivity.
  - inversion H; reflexivity.
  - unfold select in H. destruct (JSON_parse (f_content f));
      inversion H; reflexivity.
  - destruct (nth_error (outstanding st) i); [ | discriminate].
    destruct r; [discriminate | inversion H; reflexivity].
  - unfold on_input in H.
    destruct (assign k_file_name text (content (file st))) as [[e | v] |];
      inversion H; reflexivity.
  - unfold on_input in H.
    destruct (assign k_content text (content (file st))) as [[e | v] |];
      inversion H; reflexivity.
Qed.

(* --------------------------------------------------------------------- *)
(** *** Saving, then opening from the list                                *)

(** The record that Save sends for a note carries the title as [fileName]
    and the identifier of the store, or the generated one when the store has
    none; and a click on that record in the list, in whatever state the
    component is by then, puts back in the store exactly the note that was
    saved, under the identifier that was sent. *)
Theorem save_then_select_restores (st : State) (fresh title body : jsstring)
  (fileName : option json) (u text : jsstring) :
  is_note (content (file st)) title body ->
  onClickSave_call fresh (file st) = inr (save_file fileName u text) ->
  fileName = Some (JStr title) /\
  u = or_else (uuid (file st)) fresh /\
  forall st',
    select {| f_uuid := u; f_content := text |} st' =
    (set_file {| uuid := u; content := content (file st) |} st', Fulfilled).
Proof.
  intros Hn Hc. rewrite (call_of_note fresh _ _ _ Hn) in Hc.
  injection Hc as <- <- <-. repeat split.
  intros st'. unfold select. cbn [f_content f_uuid].
  rewrite (JSON_parse_stringify_note _ _ _ Hn). reflexivity.
Qed.

Lemma save_then_select_restores_witness :
  select {| f_uuid := uuid1;
            f_content := JSON_stringify (note (js "T") (js "# Hi")) |} mounted =
  (set_file {| uuid := uuid1; content := note (js "T") (js "# Hi") |} mounted,
   Fulfilled).
Proof.
  apply (save_then_select_restores
           (set_file {| uuid := []; content := note (js "T") (js "# Hi") |} init)
           uuid1 (js "T") (js "# Hi") (Some (JStr (js "T"))) uuid1
           (JSON_stringify (note (js "T") (js "# Hi")))).
  - left. reflexivity.
  - reflexivity.
Defined.

(** After a click on a record whose identifier is not empty and whose
    content [JSON.parse] reads as a note, however that text is written,
    Save sends the identifier of the record, whatever
    [crypto.randomUUID()] would return, with the title as [fileName] and
    the text of the note as content. *)
Theorem save_after_select_reuses_uuid (f : PersistedRecord) (st : State)
  (v : json) (title body fresh : jsstring) :
  JSON_parse (f_content f) = Some v ->
  is_note v title body ->
  f_uuid f <> [] ->
  onClickSave_call fresh (file (fst (select f st))) =
  inr (save_file (Some (JStr title)) (f_uuid f) (JSON_stringify v)).
Proof.
  intros Hp Hn Hu. unfold select. rewrite Hp. cbn [fst file set_file].
  rewrite (call_of_note fresh _ title body) by exact Hn. cbn [uuid content].
  destruct (f_uuid f); [congruence | reflexivity].
Qed.

Lemma save_after_select_reuses_uuid_witness :
  onClickSave_call uuid2 (file (fst (select spaced_record mounted))) =
  inr (save_file (Some (JStr (js "T"))) uuid1
         (JSON_stringify
            (JObj [(k_file_name, JStr (js "T")); (k_content, JStr (js "# Hi"))]))).
Proof.
  apply (save_after_select_reuses_uuid spaced_record mounted
           (JObj [(k_file_name, JStr (js "T")); (k_content, JStr (js "# Hi"))])
           (js "T") (js "# Hi") uuid2).
  - reflexivity.
  - right. reflexivity.
  - discriminate.
Defined.

(** Opening a note that was saved and saving it again, with nothing typed
    in between, sends the very record that was opened: the same identifier,
    the same content, and the title as [fileName]. *)
Theorem resave_sends_same_record (v : json) (title body u fresh : jsstring)
  (st : State) :
  is_note v title body ->
  u <> [] ->
  onClickSave_call fresh
    (file (fst (select {| f_uuid := u; f_content := JSON_stringify v |} st))) =
  inr (save_file (Some (JStr title)) u (JSON_stringify v)).
Proof.
  intros Hn Hu. unfold select. cbn [f_content f_uuid].
  rewrite (JSON_parse_stringify_note _ _ _ Hn). cbn [fst file set_file].
  rewrite (call_of_note fresh _ title body) by exact Hn. cbn [uuid content].
  destruct u; [congruence | reflexivity].
Qed.

Lemma resave_sends_same_record_witness :
  onClickSave_call uuid2
    (file (fst (select {| f_uuid := uuid1;
                          f_content := JSON_stringify (note (js "T") (js "# Hi")) |}
                  mounted))) =
  inr (save_file (Some (JStr (js "T"))) uuid1
         (JSON_stringify (note (js "T") (js "# Hi")))).
Proof.
  apply (resave_sends_same_record (note (js "T") (js "# Hi")) (js "T")
           (js "# Hi") uuid1 uuid2 mounted).
  - left. reflexivity.
  - discriminate.
Defined.

(* --------------------------------------------------------------------- *)
(** *** What a session keeps                                              *)

(** From a state whose store holds a note, a session without a click on a
    list item (typing, clicks on Save and Load, answers of the backend)
    leaves in the store a note of the same shape: its title and body are
    the ones typed last, or the ones the session began with, and its
    identifier is the one the session began with. *)
Theorem session_keeps_note (acts : list Action) (st st' : State)
  (title body : jsstring) :
  no_item_click acts = true ->
  is_note (content (file st)) title body ->
  run acts st = Some st' ->
  is_note (content (file st')) (typed_title acts title) (typed_body acts body) /\
  uuid (file st') = uuid (file st).
Proof. apply run_keeps_note. Qed.

Lemma session_keeps_note_witness :
  is_note (content (file mounted)) [] [] /\
  run first_session mounted =
  Some (set_file {| uuid := []; content := note (js "T") (js "# Hi") |} init) /\
  is_note (content (file (set_file {| uuid := [];
                                      content := note (js "T") (js "# Hi") |} init)))
    (js "T") (js "# Hi").
Proof.
  split; [left; reflexivity | split; [reflexivity | ]].
  apply (session_keeps_note first_session mounted
           (set_file {| uuid := []; content := note (js "T") (js "# Hi") |} init)
           [] []).
  - reflexivity.
  - left. reflexivity.
  - reflexivity.
Defined.

(** After such a session, Save sends the title typed last as [fileName],
    the identifier the session began with (the generated one if that was
    empty), and a content which [JSON.parse] reads back as the note of the
    title and body typed last. *)
Theorem session_save_sends_typed (acts : list Action) (st st' : State)
  (title body fresh : jsstring) :
  no_item_click acts = true ->
  is_note (content (file st)) title body ->
  run acts st = Some st' ->
  exists text v,
    onClickSave_call fresh (file st') =
    inr (save_file (Some (JStr (typed_title acts title)))
           (or_else (uuid (file st)) fresh) text) /\
    JSON_parse text = Some v /\
    is_note v (typed_title acts title) (typed_body acts body).
Proof.
  intros Hq Hn H.
  destruct (run_keeps_note acts st st' title body Hq Hn H) as [Hn' Hu].
  exists (JSON_stringify (content (file st'))), (content (file st')).
  rewrite (call_of_note fresh _ _ _ Hn'), Hu.
  rewrite (JSON_parse_stringify_note _ _ _ Hn'). auto.
Qed.

Lemma session_save_sends_typed_witness :
  exists text v,
    onClickSave_call uuid2
      (file (set_file {| uuid := []; content := note (js "T") (js "# Hi") |} init)) =
    inr (save_file (Some (JStr (typed_title first_session [])))
           (or_else (uuid (file mounted)) uuid2) text) /\
    JSON_parse text = Some v /\
    is_note v (typed_title first_session []) (typed_body first_session []).
Proof.
  apply (session_save_sends_typed first_session mounted
           (set_file {| uuid := []; content := note (js "T") (js "# Hi") |} init)
           [] [] uuid2).
  - reflexivity.
  - left. reflexivity.
  - reflexivity.
Defined.

(** One action of a session that opens only notes: the store still holds
    a note, and its identifier is the one of the record opened, if one
    was. *)
Lemma act_opens_note (a : Action) (st st' : State) (c : Completion)
  (title body : jsstring) :
  opens_note a ->
  is_note (content (file st)) title body ->
  act a st = Some (st', c) ->
  (exists title' body', is_note (content (file st')) title' body') /\
  uuid (file st') = last_opened [a] (uuid (file st)).
Proof.
  intros Ho Hn H.
  destruct (is_item_click a) eqn:Ha.
  - destruct a as [[fresh | | f | i r] | text | text]; try discriminate.
    cbn [act step] in H. unfold select in H. cbn [last_opened].
    cbn [opens_note] in Ho.
    destruct Ho as [Hp | (v & t & b & Hp & Hv)]; rewrite Hp in H |- *;
      inversion H; subst; cbn; eauto.
  - destruct (act_keeps_note a st st' c title body Ha Hn H) as [Hn' Hu].
    split; [eauto | ].
    rewrite Hu. destruct a as [[fresh | | f | i r] | text | text];
      try reflexivity. discriminate.
Qed.

Lemma last_opened_cons (a : Action) (rest : list Action) (u : jsstring) :
  last_opened (a :: rest) u = last_opened rest (last_opened [a] u).
Proof.
  destruct a as [[fresh | | f | i r] | text | text]; reflexivity.
Qed.

(** Starting from a store that holds a note, through any session of typing,
    clicks on Save and Load, answers of the backend, and clicks on records
    whose content is a note or is not JSON text, the store holds a note,
    and its identifier is the one of the record opened last, or the one the
    session began with if none was opened: nothing but opening a record
    gives the store another identifier. *)
Theorem identifier_is_last_opened (acts : list Action) (st st' : State)
  (title body : jsstring) :
  Forall opens_note acts ->
  is_note (content (file st)) title body ->
  run acts st = Some st' ->
  (exists title' body', is_note (content (file st')) title' body') /\
  uuid (file st') = last_opened acts (uuid (file st)).
Proof.
  revert st title body.
  induction acts as [| a rest IH]; intros st title body Ho Hn H.
  - inversion H; subst. split; [eauto | reflexivity].
  - inversion Ho as [| a' rest' Ha Hrest]; subst.
    cbn [run] in H. destruct (act a st) as [[st1 c] |] eqn:E; [ | discriminate].
    destruct (act_opens_note a st st1 c title body Ha Hn E)
      as [(t1 & b1 & Hn1) Hu1].
    destruct (IH st1 t1 b1 Hrest Hn1 H) as [Hn' Hu'].
    split; [exact Hn' | ].
    rewrite last_opened_cons, <- Hu1. exact Hu'.
Qed.

Lemma identifier_is_last_opened_witness :
  run second_session mounted =
    Some (set_outstanding [save_file (Some (JStr (js "T"))) uuid1
                             (JSON_stringify
                                (JObj [(k_file_name, JStr (js "T"));
                                       (k_content, JStr (js "text"))]));
                           get_files]
            (set_file {| uuid := uuid1;
                         content := JObj [(k_file_name, JStr (js "T"));
                                          (k_content, JStr (js "text"))] |}
               init)) /\
  last_opened second_session (uuid (file mounted)) = uuid1 /\
  uuid (file (set_outstanding [save_file (Some (JStr (js "T"))) uuid1
                                 (JSON_stringify
                                    (JObj [(k_file_name, JStr (js "T"));
                                           (k_content, JStr (js "text"))]));
                               get_files]
                (set_file {| uuid := uuid1;
                             content := JObj [(k_file_name, JStr (js "T"));
                                              (k_content, JStr (js "text"))] |}
                   init))) =
  last_opened second_session (uuid (file mounted)).
Proof.
  split; [reflexivity | split; [reflexivity | ]].
  apply (identifier_is_last_opened second_session mounted
           (set_outstanding [save_file (Some (JStr (js "T"))) uuid1
                               (JSON_stringify
                                  (JObj [(k_file_name, JStr (js "T"));
                                         (k_content, JStr (js "text"))]));
                             get_files]
              (set_file {| uuid := uuid1;
                           content := JObj [(k_file_name, JStr (js "T"));
                                            (k_content, JStr (js "text"))] |}
                 init))
           [] []).
  - unfold second_session.
    apply Forall_cons; [exact I | ].
    apply Forall_cons.
    { right.
      exists (JObj [(k_file_name, JStr (js "T")); (k_content, JStr (js "# Hi"))]),
        (js "T"), (js "# Hi").
      split; [reflexivity | right; reflexivity]. }
    apply Forall_cons; [left; reflexivity | ].
    repeat (apply Forall_cons; [exact I | ]). apply Forall_nil.
  - left. reflexivity.
  - reflexivity.
Defined.

(** Starting from a store that holds a note, through any session of typing,
    clicks on Save and Load, calls that fail, and clicks on records whose
    content is a note or is not JSON text, the list of files is as it was:
    the list changes only when a call is answered with a list. *)
Theorem list_changes_only_when_resolved (acts : list Action)
  (st st' : State) (title body : jsstring) :
  Forall opens_note acts ->
  no_resolved acts = true ->
  is_note (content (file st)) title body ->
  run acts st = Some st' ->
  files st' = files st.
Proof.
  revert st title body.
  induction acts as [| a rest IH]; intros st title body Ho Hq Hn H.
  - inversion H; reflexivity.
  - inversion Ho as [| a' rest' Ha Hrest]; subst.
    cbn in Hq. apply andb_prop in Hq as [Hr Hq].
    apply negb_true_iff in Hr.
    cbn [run] in H. destruct (act a st) as [[st1 c] |] eqn:E; [ | discriminate].
    destruct (act_opens_note a st st1 c title body Ha Hn E)
      as [(t1 & b1 & Hn1) _].
    rewrite (IH st1 t1 b1 Hrest Hq Hn1 H).
    exact (act_keeps_files a st st1 c Hr E).
Qed.

Lemma list_changes_only_when_resolved_witness :
  files (set_outstanding [save_file (Some (JStr (js "T"))) uuid1
                            (JSON_stringify
                               (JObj [(k_file_name, JStr (js "T"));
                                      (k_content, JStr (js "text"))]));
                          get_files]
           (set_file {| uuid := uuid1;
                        content := JObj [(k_file_name, JStr (js "T"));
                                         (k_content, JStr (js "text"))] |}
              (set_files [spaced_record] init))) =
  files (set_files [spaced_record] mounted).
Proof.
  apply (list_changes_only_when_resolved second_session
           (set_files [spaced_record] mounted)
           (set_outstanding [save_file (Some (JStr (js "T"))) uuid1
                               (JSON_stringify
                                  (JObj [(k_file_name, JStr (js "T"));
                                         (k_content, JStr (js "text"))]));
                             get_files]
              (set_file {| uuid := uuid1;
                           content := JObj [(k_file_name, JStr (js "T"));
                                            (k_content, JStr (js "text"))] |}
                 (set_files [spaced_record] init)))
           [] []).
  - unfold second_session.
    apply Forall_cons; [exact I | ].
    apply Forall_cons.
    { right.
      exists (JObj [(k_file_name, JStr (js "T")); (k_content, JStr (js "# Hi"))]),
        (js "T"), (js "# Hi").
      split; [reflexivity | right; reflexivity]. }
    apply Forall_cons; [left; reflexivity | ].
    repeat (apply Forall_cons; [exact I | ]). apply Forall_nil.
  - reflexivity.
  - left. reflexivity.
  - reflexivity.
Defined.

(* --------------------------------------------------------------------- *)
(** *** Two calls outstanding                                             *)

(** With two calls outstanding, the list ends as the answer that arrives
    last: the answer to the second call when the calls are answered in
    order, and the answer to the first, older call when the second is
    answered first. *)
Theorem last_answer_wins (st : State) (c1 c2 : Command)
  (d1 d2 : list PersistedRecord) :
  outstanding st = [c1; c2] ->
  run [Loop (Settle 0 (Resolved d1)); Loop (Settle 0 (Resolved d2))] st =
    Some (set_outstanding [] (set_files d2 st)) /\
  run [Loop (Settle 1 (Resolved d2)); Loop (Settle 0 (Resolved d1))] st =
    Some (set_outstanding [] (set_files d1 st)).
Proof.
  intros H. destruct st as [n l o]. cbn in H. subst o. split; reflexivity.
Qed.

Lemma last_answer_wins_witness :
  run [Loop (Settle 1 (Resolved [{| f_uuid := uuid1; f_content := js "{}" |}]));
       Loop (Settle 0 (Resolved []))]
    (call (save_file (Some (JStr [])) uuid1 (JSON_stringify (note [] [])))
       mounted) =
  Some (set_outstanding []
          (set_files []
             (call (save_file (Some (JStr [])) uuid1 (JSON_stringify (note [] [])))
                mounted))).
Proof.
  apply (last_answer_wins
           (call (save_file (Some (JStr [])) uuid1 (JSON_stringify (note [] [])))
              mounted)
           get_files
           (save_file (Some (JStr [])) uuid1 (JSON_stringify (note [] [])))
           [] [{| f_uuid := uuid1; f_content := js "{}" |}]).
  reflexivity.
Defined.

(* --------------------------------------------------------------------- *)
(** *** Records that are not notes                                        *)

(** After a click on a record whose content is the JSON text of [null], of
    a number, of a string or of a boolean, the note can no longer be typed
    into: typing in either input throws and leaves the state as it is. *)
Theorem primitive_content_cannot_be_typed_into (f : PersistedRecord)
  (st : State) (v : json) (text : jsstring) :
  JSON_parse (f_content f) = Some v ->
  is_primitive v = true ->
  act (TypeTitle text) (fst (select f st)) =
    Some (fst (select f st), Failed TypeError) /\
  act (TypeBody text) (fst (select f st)) =
    Some (fst (select f st), Failed TypeError).
Proof.
  intros Hp Hv. unfold select. rewrite Hp. cbn [fst act].
  unfold on_input. cbn [file set_file content].
  destruct v; try discriminate; split; reflexivity.
Qed.

Lemma primitive_content_cannot_be_typed_into_witness :
  act (TypeTitle (js "T"))
    (fst (select {| f_uuid := uuid1; f_content := js "42" |} mounted)) =
    Some (fst (select {| f_uuid := uuid1; f_content := js "42" |} mounted),
          Failed TypeError) /\
  act (TypeBody (js "T"))
    (fst (select {| f_uuid := uuid1; f_content := js "42" |} mounted)) =
    Some (fst (select {| f_uuid := uuid1; f_content := js "42" |} mounted),
          Failed TypeError).
Proof.
  apply (primitive_content_cannot_be_typed_into
           {| f_uuid := uuid1; f_content := js "42" |} mounted
           (JNum (js "42")) (js "T")); reflexivity.
Defined.

(** After a click on a record whose content is the JSON text [null], a
    click on Save throws before any call is made: the state is as it was,
    with no call more outstanding. *)
Theorem null_content_cannot_be_saved (f : PersistedRecord) (st : State)
  (fresh : jsstring) :
  JSON_parse (f_content f) = Some JNull ->
  act (Loop (ClickSave fresh)) (fst (select f st)) =
    Some (fst (select f st), Failed TypeError) /\
  file (fst (select f st)) = {| uuid := f_uuid f; content := JNull |}.
Proof.
  intros Hp. unfold select. rewrite Hp. split; reflexivity.
Qed.

Lemma null_content_cannot_be_saved_witness :
  act (Loop (ClickSave uuid2))
    (fst (select {| f_uuid := uuid1; f_content := js " null " |} mounted)) =
    Some (fst (select {| f_uuid := uuid1; f_content := js " null " |} mounted),
          Failed TypeError) /\
  file (fst (select {| f_uuid := uuid1; f_content := js " null " |} mounted)) =
    {| uuid := uuid1; content := JNull |}.
Proof.
  apply (null_content_cannot_be_saved
           {| f_uuid := uuid1; f_content := js " null " |} mounted uuid2).
  reflexivity.
Defined.

End Sessions.
